(** * tweettopdf: the article content-extraction heuristic

    A shallow embedding of the callback that [scrapeArticle] evaluates in
    the page (src/app/page.tsx, lines 379-599) and of the article branch of
    the [POST] handler (lines 812-842), with the properties the
    specification states about them.

    The DOM is read only through a snapshot: the hyperlinks and the
    candidate elements in document order, each with the values the code
    reads from it (tag name, [src], trimmed [textContent], the parsed
    computed font weight and size, and whether it has a block descendant). *)

From Stdlib Require Import NArith ZArith QArith String Ascii Lia.
From stdpp Require Import base gmap list.

Local Open Scope nat_scope.

(** ** JavaScript strings *)

(** A JavaScript string is a sequence of UTF-16 code units; [length] counts
    code units, and so does [String.prototype.length]. *)
Module JsString.

Abbreviation codeunit := N (only parsing).
Abbreviation jsstring := (list N) (only parsing).

(** An ASCII literal of the source as code units. *)
Definition u16 (s : string) : jsstring :=
  map N_of_ascii (list_ascii_of_string s).

(** [!s] on a string: the empty string is the only falsy one. *)
Definition falsy (s : jsstring) : bool :=
  match s with [] => true | _ => false end.

Definition truthy (s : jsstring) : bool := negb (falsy s).

(** [s === t]. *)
Definition str_eqb (s t : jsstring) : bool := bool_decide (s = t).

(** [t.startsWith(p)]. *)
Fixpoint startsWith (p t : jsstring) : bool :=
  match p, t with
  | [], _ => true
  | a :: p', b :: t' => N.eqb a b && startsWith p' t'
  | _ :: _, [] => false
  end.

(** [t.includes(p)]: [p] occurs at some position of [t]. *)
Fixpoint includes (p t : jsstring) : bool :=
  startsWith p t ||
  match t with
  | [] => false
  | _ :: t' => includes p t'
  end.

(** [t.slice(n)] for [0 <= n]. *)
Definition slice_from (n : nat) (t : jsstring) : jsstring := drop n t.

(** Canonicalization of a code unit under the [i] flag (no [u] flag): a
    code unit is upper-cased, and one outside ASCII never becomes an ASCII
    one, so against an ASCII pattern only the letters a-z fold. *)
Definition upper (c : codeunit) : codeunit :=
  if (N.leb 97 c && N.leb c 122)%bool then (c - 32)%N else c.

Definition ci_eqb (a b : codeunit) : bool := N.eqb (upper a) (upper b).

(** [/^p/i.test(t)] for a literal pattern [p]. *)
Fixpoint ci_startsWith (p t : jsstring) : bool :=
  match p, t with
  | [], _ => true
  | a :: p', b :: t' => ci_eqb a b && ci_startsWith p' t'
  | _ :: _, [] => false
  end.

(** [/^p$/i.test(t)] for a literal pattern [p]. *)
Definition ci_equals (p t : jsstring) : bool :=
  ci_startsWith p t && Nat.eqb (length t) (length p).

(** [\w]: the class [A-Za-z0-9_]. *)
Definition isWord (c : codeunit) : bool :=
  (N.leb 65 c && N.leb c 90) || (N.leb 97 c && N.leb c 122)
  || (N.leb 48 c && N.leb c 57) || N.eqb c 95.

(** [\d]. *)
Definition isDigit (c : codeunit) : bool := N.leb 48 c && N.leb c 57.

(** [\s]: white space and line terminators of ECMAScript. *)
Definition isSpace (c : codeunit) : bool :=
  (N.leb 9 c && N.leb c 13) || N.eqb c 32 || N.eqb c 160
  || N.eqb c 5760 || (N.leb 8192 c && N.leb c 8202)
  || N.eqb c 8232 || N.eqb c 8233 || N.eqb c 8239 || N.eqb c 8287
  || N.eqb c 12288 || N.eqb c 65279.

(** [/^\w+$/.test(t)]: one or more word characters up to the end. *)
Definition word_run (t : jsstring) : bool :=
  truthy t && forallb isWord t.

Fixpoint dropWhile (f : codeunit -> bool) (t : jsstring) : jsstring :=
  match t with
  | [] => []
  | c :: t' => if f c then dropWhile f t' else t
  end.

(** [/^\s+\d+$/.test(t)]: the classes are disjoint, so the greedy split
    is the only one. *)
Definition spaces_then_digits (t : jsstring) : bool :=
  match t with
  | [] => false
  | c :: _ =>
      isSpace c &&
      (let r := dropWhile isSpace t in truthy r && forallb isDigit r)
  end.

End JsString.
Import JsString.

(** [t.replace(pat, rep)] with a string pattern: the first occurrence only. *)
Fixpoint replace_first (pat rep t : jsstring) : jsstring :=
  if startsWith pat t then rep ++ drop (length pat) t
  else match t with
       | [] => []
       | c :: t' => c :: replace_first pat rep t'
       end.

(** ** The snapshot of the page *)

(** A hyperlink of [document.querySelectorAll('a[href*="/"]')] that is an
    HTML anchor: its [href], a string, and [link.textContent?.trim() || ''].
    The anchors of other namespaces, whose [href] is no string, come with
    [Anchor] and [callback] below. *)
Record Link := mkLink { href : jsstring; linkText : jsstring }.

Inductive TagName := H1 | H2 | H3 | H4 | P | DIV | SPAN | IMG.

#[global] Instance TagName_eq_dec : EqDecision TagName.
Proof. solve_decision. Defined.

(** An element of [container.querySelectorAll('h1, h2, h3, h4, p, div, span, img')].
    [textContent] is [el.textContent?.trim()]; [fontWeight] is
    [parseInt(computedStyle.fontWeight)] and [fontSize] is
    [parseFloat(computedStyle.fontSize)], [None] standing for NaN (a finite
    double is a rational number); [hasBlockChildren] is whether
    [el.querySelector('p, div, h1, h2, h3, h4')] finds an element. *)
Record Element := mkElement {
  tagName : TagName;
  src : jsstring;
  textContent : jsstring;
  fontWeight : option Z;
  fontSize : option Q;
  hasBlockChildren : bool
}.

(** What the callback reads from the document. [avatarImg] is the [src] of
    the first [img[src*="profile_images"]]; [titleProbes] has, for each of
    the four title selectors in order, the trimmed text of its first match;
    [container] has the candidate elements of the first container selector
    that matches; [timeDatetime] is the [datetime] attribute of the first
    [time] element. *)
Record Document := mkDocument {
  avatarImg : option jsstring;
  userLinks : list Link;
  titleProbes : list (option jsstring);
  container : option (list Element);
  timeDatetime : option jsstring
}.

Inductive ItemType := text | image.

#[global] Instance ItemType_eq_dec : EqDecision ItemType.
Proof. solve_decision. Defined.

(** [{ type: 'text' | 'image'; value: string }]. *)
Record ContentItem := mkItem { type : ItemType; value : jsstring }.

#[global] Instance ContentItem_eq_dec : EqDecision ContentItem.
Proof. solve_decision. Defined.

(** The object the callback returns (without its [debug] member). The
    fields live in a module of their own: [content] is also the name of
    the array the classification loop fills. *)
Module Article.
Record ArticleData := mkArticleData {
  title : jsstring;
  authorName : jsstring;
  authorHandle : jsstring;
  authorAvatar : jsstring;
  content : list ContentItem;
  date : jsstring
}.
End Article.

(** ** Author and title *)

(** [href.match(/x\.com\/\w+$/)]: the pattern is not anchored on the left,
    so every start position is tried. *)
Fixpoint matches_profile_root (h : jsstring) : bool :=
  (startsWith (u16 "x.com/") h && word_run (drop 6 h))
  || match h with
     | [] => false
     | _ :: h' => matches_profile_root h'
     end.

(** The guard of the loop over the links. *)
Definition is_user_link (l : Link) : bool :=
  matches_profile_root (href l) && negb (includes (u16 "/i/") (href l)).

(** The two variables the loop over the links assigns. *)
Record Author := mkAuthor { name : jsstring; handle : jsstring }.

(** One iteration of the loop at lines 393-404; the boolean is [true] when
    the iteration ends in [break]. *)
Definition author_step (a : Author) (l : Link) : Author * bool :=
  if is_user_link l then
    let text := linkText l in
    let a' :=
      if startsWith (u16 "@") text then
        {| name := name a; handle := text |}
      else if truthy text && negb (truthy (name a)) && (length text <? 50) then
        {| name := text; handle := handle a |}
      else a in
    (a', truthy (name a') && truthy (handle a'))
  else (a, false).

Fixpoint author_loop (a : Author) (links : list Link) : Author :=
  match links with
  | [] => a
  | l :: rest =>
      let '(a', stop) := author_step a l in
      if stop then a' else author_loop a' rest
  end.

Definition extractAuthor (links : list Link) : Author :=
  author_loop {| name := []; handle := [] |} links.

(** The loop over [titleSelectors]: the first probe that finds an element
    with non-empty trimmed text. *)
Fixpoint extractTitle (probes : list (option jsstring)) : jsstring :=
  match probes with
  | [] => []
  | Some t :: rest => if truthy t then t else extractTitle rest
  | None :: rest => extractTitle rest
  end.

(** ** The classification pass *)

(** [skipPatterns], in the order of the source. *)
Definition months : list jsstring :=
  map u16 ["Jan"; "Feb"; "Mar"; "Apr"; "May"; "Jun";
           "Jul"; "Aug"; "Sep"; "Oct"; "Nov"; "Dec"]%string.

Definition skipPatterns : list (jsstring -> bool) :=
  [ ci_startsWith (u16 "To view keyboard");
    ci_startsWith (u16 "View keyboard");
    ci_equals (u16 "Log in");
    ci_equals (u16 "Sign up");
    (fun t => match t with 64%N :: r => word_run r | _ => false end);
    (fun t => existsb (fun m => startsWith m t && spaces_then_digits (drop 3 t)) months);
    (fun t => str_eqb t [194%N; 183%N]);
    ci_startsWith (u16 "More from");
    ci_equals (u16 "Follow");
    ci_equals (u16 "Repost");
    ci_equals (u16 "Quote");
    ci_equals (u16 "Like");
    ci_equals (u16 "Bookmark");
    ci_equals (u16 "Share");
    ci_equals (u16 "Copy link") ].

(** The variables of the loop over [allElements]. *)
Record LoopState := mkLoopState {
  content : list ContentItem;
  seenTexts : gset (list N);
  seenImages : gset (list N);
  foundFirstContent : bool;
  reachedFooter : bool;
  headerImageCount : N;
  skippedAfterTitle : N
}.

Definition initial : LoopState :=
  {| content := []; seenTexts := ∅; seenImages := ∅;
     foundFirstContent := false; reachedFooter := false;
     headerImageCount := 0; skippedAfterTitle := 0 |}.

Definition push (it : ContentItem) (st : LoopState) : LoopState :=
  {| content := content st ++ [it]; seenTexts := seenTexts st;
     seenImages := seenImages st;
     foundFirstContent := foundFirstContent st;
     reachedFooter := reachedFooter st;
     headerImageCount := headerImageCount st;
     skippedAfterTitle := skippedAfterTitle st |}.

Definition add_seenText (t : jsstring) (st : LoopState) : LoopState :=
  {| content := content st; seenTexts := {[ t ]} ∪ seenTexts st;
     seenImages := seenImages st;
     foundFirstContent := foundFirstContent st;
     reachedFooter := reachedFooter st;
     headerImageCount := headerImageCount st;
     skippedAfterTitle := skippedAfterTitle st |}.

Definition add_seenImage (s : jsstring) (st : LoopState) : LoopState :=
  {| content := content st; seenTexts := seenTexts st;
     seenImages := {[ s ]} ∪ seenImages st;
     foundFirstContent := foundFirstContent st;
     reachedFooter := reachedFooter st;
     headerImageCount := headerImageCount st;
     skippedAfterTitle := skippedAfterTitle st |}.

Definition incr_headerImageCount (st : LoopState) : LoopState :=
  {| content := content st; seenTexts := seenTexts st;
     seenImages := seenImages st;
     foundFirstContent := foundFirstContent st;
     reachedFooter := reachedFooter st;
     headerImageCount := headerImageCount st + 1;
     skippedAfterTitle := skippedAfterTitle st |}.

Definition set_reachedFooter (st : LoopState) : LoopState :=
  {| content := content st; seenTexts := seenTexts st;
     seenImages := seenImages st;
     foundFirstContent := foundFirstContent st;
     reachedFooter := true;
     headerImageCount := headerImageCount st;
     skippedAfterTitle := skippedAfterTitle st |}.

(** [foundFirstContent = true; skippedAfterTitle = 0]. *)
Definition start_content (st : LoopState) : LoopState :=
  {| content := content st; seenTexts := seenTexts st;
     seenImages := seenImages st;
     foundFirstContent := true;
     reachedFooter := reachedFooter st;
     headerImageCount := headerImageCount st;
     skippedAfterTitle := 0 |}.

Definition incr_skippedAfterTitle (st : LoopState) : LoopState :=
  {| content := content st; seenTexts := seenTexts st;
     seenImages := seenImages st;
     foundFirstContent := foundFirstContent st;
     reachedFooter := reachedFooter st;
     headerImageCount := headerImageCount st;
     skippedAfterTitle := skippedAfterTitle st + 1 |}.

(** The condition of lines 471-477 on the [src] of an image. *)
Definition image_qualifies (seen : gset (list N)) (s : jsstring) : bool :=
  truthy s
  && negb (includes (u16 "profile_images") s)
  && negb (includes (u16 "emoji") s)
  && negb (includes (u16 "icon") s)
  && negb (includes (u16 "svg") s)
  && negb (bool_decide (s ∈ seen))
  && (includes (u16 "pbs.twimg.com") s || includes (u16 "ton.twimg.com") s).

(** Lines 469-492: the branch of an [IMG] element. *)
Definition image_branch (st : LoopState) (el : Element) : LoopState :=
  let s := src el in
  if image_qualifies (seenImages st) s then
    let st1 := add_seenImage s st in
    if negb (foundFirstContent st1) then
      let st2 := incr_headerImageCount st1 in
      if N.eqb (headerImageCount st2) 1
      then push {| type := image; value := s |} st2
      else st2
    else push {| type := image; value := s |} st1
  else st.

Definition isHeadingTag (el : Element) : bool :=
  match tagName el with
  | H1 | H2 | H3 | H4 => true
  | _ => false
  end.

(** [parseInt(computedStyle.fontWeight) || 400]. *)
Definition fontWeight_of (el : Element) : Z :=
  match fontWeight el with
  | Some w => if Z.eqb w 0 then 400%Z else w
  | None => 400%Z
  end.

(** [parseFloat(computedStyle.fontSize) || 16]. *)
Definition fontSize_of (el : Element) : Q :=
  match fontSize el with
  | Some q => if Qeq_bool q 0 then 16%Q else q
  | None => 16%Q
  end.

Definition isStyledAsHeading (el : Element) : bool :=
  Z.leb 600 (fontWeight_of el) && Qle_bool 20 (fontSize_of el)
  && (length (textContent el) <? 150).

Definition heading_like (el : Element) : bool :=
  isHeadingTag el || isStyledAsHeading el.

(** Lines 514-530: the lead-in block. The boolean is [true] when the
    iteration ends in [continue]. *)
Definition lead_in (st : LoopState) (el : Element) : LoopState * bool :=
  if negb (foundFirstContent st) then
    if 40 <? length (textContent el) then (start_content st, false)
    else if heading_like el then (start_content st, false)
    else
      let st1 := incr_skippedAfterTitle st in
      (st1, N.leb (skippedAfterTitle st1) 6)
  else (st, false).

(** Lines 532-542: the leaf test and the two pushes. *)
Definition emit_text (st : LoopState) (el : Element) : LoopState :=
  if hasBlockChildren el && bool_decide (tagName el = DIV) then st
  else
    let t := textContent el in
    let st1 := add_seenText t st in
    if heading_like el
    then push {| type := text; value := u16 "## " ++ t |} st1
    else push {| type := text; value := t |} st1.

Section Pass.

(** The author and the title found before the pass. *)
Variables (authorName authorHandle title : jsstring).

(** Lines 495-499: the four tests that end the iteration in [continue]. *)
Definition skipped (st : LoopState) (t : jsstring) : bool :=
  (falsy t || (length t <? 3))
  || bool_decide (t ∈ seenTexts st)
  || existsb (fun p => p t) skipPatterns
  || (str_eqb t authorName || str_eqb t authorHandle || str_eqb t title).

(** Line 502. *)
Definition footer_test (st : LoopState) (t : jsstring) : bool :=
  startsWith (u16 "More from") t
  || (foundFirstContent st && str_eqb t authorName).

(** Lines 494-542: the branch of an element that is not an image. *)
Definition text_branch (st : LoopState) (el : Element) : LoopState :=
  let t := textContent el in
  if skipped st t then st
  else if footer_test st t then set_reachedFooter st
  else
    let '(st1, continue) := lead_in st el in
    if continue then st1 else emit_text st1 el.

(** The body of the loop, after the test of [reachedFooter] at its top. *)
Definition body (st : LoopState) (el : Element) : LoopState :=
  if bool_decide (tagName el = IMG) then image_branch st el
  else text_branch st el.

(** [for (const el of Array.from(allElements))]: the [break] of line 504
    follows [reachedFooter = true], and the test at the top of the next
    iteration would leave the loop as well. *)
Fixpoint loop (st : LoopState) (els : list Element) : LoopState :=
  match els with
  | [] => st
  | el :: rest =>
      if reachedFooter st then st
      else
        let st' := body st el in
        if reachedFooter st' then st' else loop st' rest
  end.

Definition classify (els : list Element) : list ContentItem :=
  content (loop initial els).

End Pass.

(** Lines 545-548: [if (content.length > 1) content.splice(-1)]. *)
Definition trailing_drop (c : list ContentItem) : list ContentItem :=
  if 1 <? length c then removelast c else c.

(** ** The noise filter *)

(** [text.startsWith('## ') ? text.slice(3) : text]. *)
Definition rawText (t : jsstring) : jsstring :=
  if startsWith (u16 "## ") t then slice_from 3 t else t.

(** Lines 558-560: the three call-to-action patterns. *)
Definition is_cta (raw : jsstring) : bool :=
  ci_equals (u16 "Subscribe") raw
  || ci_startsWith (u16 "Click to Subscribe") raw
  || ci_startsWith (u16 "Click to Follow") raw.

(** The callback given to [content.filter]: from the value of
    [foundRealParagraph] before the call, the boolean it returns and the
    value of [foundRealParagraph] after it. *)
Definition filter_callback (foundRealParagraph : bool) (item : ContentItem)
  : bool * bool :=
  match type item with
  | image => (true, foundRealParagraph)
  | text =>
      let raw := rawText (value item) in
      if is_cta raw then (false, foundRealParagraph)
      else if negb foundRealParagraph then
        if 50 <=? length raw then (true, true)
        else if length raw <? 10 then (false, foundRealParagraph)
        else (true, foundRealParagraph)
      else (true, foundRealParagraph)
  end.

(** [content.filter(callback)], the flag threaded from left to right. *)
Fixpoint filter_from (foundRealParagraph : bool) (c : list ContentItem)
  : list ContentItem :=
  match c with
  | [] => []
  | item :: rest =>
      let '(keep, found') := filter_callback foundRealParagraph item in
      if keep then item :: filter_from found' rest
      else filter_from found' rest
  end.

(** The value of [foundRealParagraph] after the filter has run over [c]. *)
Fixpoint flag_after (foundRealParagraph : bool) (c : list ContentItem) : bool :=
  match c with
  | [] => foundRealParagraph
  | item :: rest => flag_after (snd (filter_callback foundRealParagraph item)) rest
  end.

(** Lines 551-574: [let foundRealParagraph = false] and the filter. *)
Definition filterContent (c : list ContentItem) : list ContentItem :=
  filter_from false c.

(** ** The callback of [page.evaluate] *)

Definition evaluate (d : Document) : Article.ArticleData :=
  let authorAvatar :=
    match avatarImg d with
    | Some s => replace_first (u16 "_normal") (u16 "_400x400") s
    | None => []
    end in
  let a := extractAuthor (userLinks d) in
  let title := extractTitle (titleProbes d) in
  let content :=
    match container d with
    | Some els =>
        filterContent (trailing_drop (classify (name a) (handle a) title els))
    | None => []
    end in
  {| Article.title := title;
     Article.authorName := name a;
     Article.authorHandle := handle a;
     Article.authorAvatar := authorAvatar;
     Article.content := content;
     Article.date := default [] (timeDatetime d) |}.

(** ** The article branch of [POST] *)

(** What the handler does with the scraped article: it answers with
    [NextResponse.json({ error }, { status })], or it goes on to
    [generateArticleHTML] and [generatePDF] with the article. *)
Inductive Outcome :=
| JsonError (error : string) (status : Z)
| Render (articleData : Article.ArticleData).

(** Lines 832-842. *)
Definition post_article (articleData : Article.ArticleData) : Outcome :=
  if falsy (Article.title articleData)
     && Nat.eqb (length (Article.content articleData)) 0
  then JsonError
         "Could not extract article content. The article may be private or deleted."
         400
  else Render articleData.


(** * Vocabulary of the properties *)

(** The items the three call-to-action tests remove: text items only. *)
Definition removed_as_cta (item : ContentItem) : bool :=
  match type item with
  | image => false
  | text => is_cta (rawText (value item))
  end.

Definition subscribe_item : ContentItem := mkItem text (u16 "Subscribe").

Definition body_paragraph : ContentItem :=
  mkItem text (u16 "A paragraph of the article, long enough to count as a real one.").


(** Three paragraphs of 5, 60 and 8 code units, none a call to action. *)
Definition para_5 : ContentItem := mkItem text (u16 "Hello").

Definition para_60 : ContentItem :=
  mkItem text (u16 "This paragraph of the article has sixty code units in total.").

Definition para_8 : ContentItem := mkItem text (u16 "The end.").

(** A paragraph of 20 code units. *)
Definition para_20 : ContentItem := mkItem text (u16 "Twenty code units!!!").

(** The message of the extraction-empty answer. *)
Definition extraction_empty_message : string :=
  "Could not extract article content. The article may be private or deleted.".

(** [skippedAfterTitle = n]. *)
Definition set_skippedAfterTitle (n : N) (st : LoopState) : LoopState :=
  {| content := content st; seenTexts := seenTexts st;
     seenImages := seenImages st;
     foundFirstContent := foundFirstContent st;
     reachedFooter := reachedFooter st;
     headerImageCount := headerImageCount st;
     skippedAfterTitle := n |}.

(** An element that is not a [DIV] with a block descendant. *)
Definition leaf (el : Element) : bool :=
  negb (hasBlockChildren el && bool_decide (tagName el = DIV)).

(** The item pushed for a text element, and for an image. *)
Definition text_item (el : Element) : ContentItem :=
  if heading_like el
  then {| type := text; value := u16 "## " ++ textContent el |}
  else {| type := text; value := textContent el |}.

Definition image_item (el : Element) : ContentItem :=
  {| type := image; value := src el |}.

(** A text node that passes the four skip tests in state [st]. *)
Definition candidate (authorName authorHandle title : list N)
    (st : LoopState) (el : Element) : bool :=
  negb (bool_decide (tagName el = IMG))
  && negb (skipped authorName authorHandle title st (textContent el)).

(** The test of the lead-in block: more than 40 code units, or
    heading-like. *)
Definition substantial (el : Element) : bool :=
  (40 <? length (textContent el)) || heading_like el.

Definition short (el : Element) : bool := negb (substantial el).

(** An image the pass has not seen and whose [src] passes the tests of
    lines 471-477. *)
Definition qualifying_image (st : LoopState) (el : Element) : bool :=
  bool_decide (tagName el = IMG) && image_qualifies (seenImages st) (src el).

(** The URLs of the image items of a sequence, in order. *)
Definition image_urls (c : list ContentItem) : list (list N) :=
  omap (fun it => match type it with
                  | image => Some (value it)
                  | text => None
                  end) c.

(** ** Concrete pages *)

(** A [p] element in the default style, and a wrapping [div]. *)
Definition paragraph (s : string) : Element :=
  {| tagName := P; src := []; textContent := u16 s;
     fontWeight := Some 400%Z; fontSize := Some 16%Q;
     hasBlockChildren := false |}.

Definition wrapper (s : string) : Element :=
  {| tagName := DIV; src := []; textContent := u16 s;
     fontWeight := Some 400%Z; fontSize := Some 16%Q;
     hasBlockChildren := true |}.

Definition picture (s : string) : Element :=
  {| tagName := IMG; src := u16 s; textContent := [];
     fontWeight := Some 400%Z; fontSize := Some 16%Q;
     hasBlockChildren := false |}.

Definition the_name : list N := u16 "Real Author".
Definition the_handle : list N := u16 "@follow_me".
Definition the_title : list N := u16 "My Title".

Definition six_shorts : list Element :=
  map paragraph
    ["Subscribe now"; "12.4K Followers"; "5 min read";
     "Technology"; "Opinion piece"; "Updated today"]%string.

Definition seventh_short : Element := paragraph "Seventh short line".

(** A paragraph of exactly 40 code units. *)
Definition node_40 : Element :=
  paragraph "Exactly forty code units are found here!".

Definition long_1 : Element :=
  paragraph "This is a long enough paragraph to count as real content for sure.".

Definition long_2 : Element :=
  paragraph "Another paragraph that is certainly longer than forty characters.".

Definition last_line : Element := paragraph "The last line of the page.".

Definition pic_1 : Element := picture "https://pbs.twimg.com/media/hero.jpg".
Definition pic_2 : Element := picture "https://pbs.twimg.com/media/figure-2.jpg".
Definition pic_3 : Element := picture "https://pbs.twimg.com/media/figure-3.jpg".

(** A [div] around the whole article: its text is long and it has block
    descendants. *)
Definition article_wrapper : Element :=
  wrapper "This is a long enough paragraph to count as real content for sure. The last line of the page.".

(** The invariant of the pass on images: every image item collected so far
    has its URL in the seen set, and no URL was collected twice. *)
Definition image_inv (st : LoopState) : Prop :=
  (forall s, s ∈ image_urls (content st) -> s ∈ seenImages st)
  /\ NoDup (image_urls (content st)).

(** A page whose body holds a "More from" line between two paragraphs, and
    one whose body repeats the author name there. *)
Definition more_from : Element := paragraph "More from Real Author".

Definition author_again : Element :=
  {| tagName := SPAN; src := []; textContent := the_name;
     fontWeight := Some 400%Z; fontSize := Some 16%Q;
     hasBlockChildren := false |}.

Definition author_links : list Link :=
  [ {| href := u16 "https://x.com/follow_me"; linkText := the_name |};
    {| href := u16 "https://x.com/follow_me"; linkText := the_handle |} ].

Definition page_with (els : list Element) : Document :=
  {| avatarImg := None;
     userLinks := author_links;
     titleProbes := [Some the_title; None; Some the_title; Some the_title];
     container := Some els;
     timeDatetime := None |}.

Definition more_from_page : Document :=
  page_with [long_1; more_from; long_2; last_line].

Definition author_again_page : Document :=
  page_with [long_1; author_again; pic_1; long_2; last_line].

(** Links of a page that mentions two accounts before the author's name. *)
Definition mention_links : list Link :=
  [ {| href := u16 "https://x.com/first_handle";
       linkText := u16 "@first_handle" |};
    {| href := u16 "https://x.com/second_handle";
       linkText := u16 "@second_handle" |};
    {| href := u16 "https://x.com/real_author"; linkText := the_name |} ].

(** The text of the first user link, in document order, whose text starts
    with [@]. *)
Definition first_at_link (links : list Link) : option (list N) :=
  linkText <$>
    List.find (fun l => is_user_link l && startsWith (u16 "@") (linkText l))
      links.

(** The page of the end-to-end scenario: the title, the handle, the name
    and a "Follow" label, six short lines, one long paragraph, an image and
    a "More from" line. *)
Definition scenario_page : Document :=
  page_with
    ([ {| tagName := H1; src := []; textContent := the_title;
          fontWeight := Some 700%Z; fontSize := Some 32%Q;
          hasBlockChildren := false |};
       {| tagName := DIV; src := []; textContent := the_handle;
          fontWeight := Some 400%Z; fontSize := Some 16%Q;
          hasBlockChildren := false |};
       {| tagName := DIV; src := []; textContent := the_name;
          fontWeight := Some 400%Z; fontSize := Some 16%Q;
          hasBlockChildren := false |};
       {| tagName := SPAN; src := []; textContent := u16 "Follow";
          fontWeight := Some 400%Z; fontSize := Some 16%Q;
          hasBlockChildren := false |} ]
     ++ replicate 6 (paragraph "short")
     ++ [long_1; pic_1; more_from]).

(** * More of the vocabulary *)

(** The item the pass pushes for an element. *)
Definition item_of (el : Element) : ContentItem :=
  if bool_decide (tagName el = IMG) then image_item el else text_item el.

(** The texts of the elements of a sequence that are not images. *)
Definition texts_of (els : list Element) : list (list N) :=
  omap (fun el => if bool_decide (tagName el = IMG) then None
                  else Some (textContent el)) els.

(** What an element kept by the pass has passed: for an image the tests
    on its URL, for a text node the tests of lines 496-499 (with nothing
    seen yet) and the leaf test. *)
Definition accepted (authorName authorHandle title : list N)
    (el : Element) : bool :=
  if bool_decide (tagName el = IMG)
  then image_qualifies ∅ (src el)
  else candidate authorName authorHandle title initial el && leaf el.

(** A user link whose text can become the display name. *)
Definition name_candidate (l : Link) : bool :=
  is_user_link l && negb (startsWith (u16 "@") (linkText l))
  && truthy (linkText l) && (length (linkText l) <? 50).

(** A user link whose text becomes the handle. *)
Definition handle_link (l : Link) : bool :=
  is_user_link l && startsWith (u16 "@") (linkText l).

(** The items the filter keeps while no text of 50 code units has been
    met: images, and texts of at least 10 code units that are no call to
    action. *)
Definition kept_before_flag (item : ContentItem) : bool :=
  match type item with
  | image => true
  | text => negb (is_cta (rawText (value item)))
            && (10 <=? length (rawText (value item)))
  end.

(** A text item of at least 50 code units that is no call to action: the
    item that sets [foundRealParagraph]. *)
Definition real_paragraph (item : ContentItem) : bool :=
  match type item with
  | image => false
  | text => negb (is_cta (rawText (value item)))
            && (50 <=? length (rawText (value item)))
  end.

Definition is_image (item : ContentItem) : bool :=
  bool_decide (type item = image).

(** Links of a page where the name comes first, as on an article page. *)
Definition byline_links : list Link :=
  [ {| href := u16 "https://x.com/home"; linkText := [] |};
    {| href := u16 "https://x.com/real_author"; linkText := the_name |};
    {| href := u16 "https://x.com/real_author"; linkText := the_handle |};
    {| href := u16 "https://x.com/someone_else";
       linkText := u16 "@someone_else" |} ].

(** ** Rendering *)

(** [t.replace(/c/g, rep)] for a pattern of one literal character: every
    occurrence is replaced, from left to right. *)
Definition replace_char (c : N) (rep : list N) (t : list N) : list N :=
  flat_map (fun x => if N.eqb x c then rep else [x]) t.

(** Lines 637-645: six replacements, one after the other. *)
Definition escapeHtml (t : list N) : list N :=
  replace_char 10 (u16 "<br>")
    (replace_char 39 (u16 "&#039;")
       (replace_char 34 (u16 "&quot;")
          (replace_char 62 (u16 "&gt;")
             (replace_char 60 (u16 "&lt;")
                (replace_char 38 (u16 "&amp;") t))))).

(** What one code unit of the input becomes. *)
Definition escape_unit (c : N) : list N :=
  if N.eqb c 38 then u16 "&amp;"
  else if N.eqb c 60 then u16 "&lt;"
  else if N.eqb c 62 then u16 "&gt;"
  else if N.eqb c 34 then u16 "&quot;"
  else if N.eqb c 39 then u16 "&#039;"
  else if N.eqb c 10 then u16 "<br>"
  else [c].

(** A piece of a template literal of the source, written with [~] for the
    double quote (the templates have no [~] of their own). *)
Definition tpl (s : string) : list N :=
  map (fun c => if N.eqb c 126 then 34%N else c) (u16 s).

(** [parts.join(sep)]. *)
Fixpoint join (sep : list N) (parts : list (list N)) : list N :=
  match parts with
  | [] => []
  | [p] => p
  | p :: rest => p ++ sep ++ join sep rest
  end.

Definition h2_open : list N :=
  tpl "<h2 style=~font-size: 22px; font-weight: 700; margin: 28px 0 14px 0; color: #0f1419; line-height: 1.3;~>".

Definition p_open : list N :=
  tpl "<p style=~font-size: 16px; line-height: 1.7; margin-bottom: 16px; color: #0f1419; font-weight: 400;~>".

(** Lines 698-710: the callback given to [map] in [generateArticleHTML]. *)
Definition render_item (item : ContentItem) : list N :=
  match type item with
  | image =>
      tpl "<img src=~" ++ value item
      ++ tpl "~ style=~max-width: 100%; border-radius: 12px; margin: 20px 0; display: block;~ alt=~Article image~ />"
  | text =>
      let isHeading := startsWith (u16 "## ") (value item) in
      let t := if isHeading then slice_from 3 (value item) else value item in
      if isHeading
      then h2_open ++ escapeHtml t ++ u16 "</h2>"
      else p_open ++ escapeHtml t ++ u16 "</p>"
  end.

(** Lines 697-712: [contentHtml]. *)
Definition contentHtml (c : list ContentItem) : list N :=
  join [10%N] (map render_item c).

(** ** URLs *)

Fixpoint takeWhile (f : N -> bool) (t : list N) : list N :=
  match t with
  | [] => []
  | c :: t' => if f c then c :: takeWhile f t' else []
  end.

(** [url.match(/KEY(\d+)/)] for a literal [KEY], and the capture group of
    the match: the pattern is tried at every position from the left; at
    the first one where [KEY] is followed by a digit, the group is the
    longest run of digits there. *)
Fixpoint match_digits_after (key url : list N) : option (list N) :=
  let here :=
    if startsWith key url then takeWhile isDigit (drop (length key) url)
    else [] in
  if truthy here then Some here
  else match url with
       | [] => None
       | _ :: url' => match_digits_after key url'
       end.

(** Lines 250-258. *)
Definition extractTweetId (url : list N) : option (list N) :=
  match_digits_after (u16 "status/") url.

Definition extractArticleId (url : list N) : option (list N) :=
  match_digits_after (u16 "article/") url.

(** Lines 260-262. *)
Definition isArticleUrl (url : list N) : bool :=
  includes (u16 "/i/article/") url.

(** [parsed.pathname.match(/^\/\w+\/status\/\d+/)]: the run of word
    characters is the longest one, since the next character has to be the
    slash. *)
Definition isTweetPath (pathname : list N) : bool :=
  match pathname with
  | c :: r =>
      let w := takeWhile isWord r in
      N.eqb c 47
      && truthy w
      && startsWith (u16 "/status/") (drop (length w) r)
      && truthy (takeWhile isDigit (drop 8 (drop (length w) r)))
  | [] => false
  end.

(** [parsed.pathname.match(/^\/i\/article\/\d+/)]. *)
Definition isArticlePath (pathname : list N) : bool :=
  startsWith (u16 "/i/article/") pathname
  && truthy (takeWhile isDigit (drop 11 pathname)).

Definition validHosts : list (list N) :=
  map u16 ["twitter.com"; "www.twitter.com"; "x.com"; "www.x.com"]%string.

(** Lines 234-248. [parseURL] stands for [new URL(url)]: the host name and
    the path name of the parsed URL, or [None] when the constructor
    throws. *)
Definition isValidTwitterUrl
    (parseURL : list N -> option (list N * list N)) (url : list N) : bool :=
  match parseURL url with
  | None => false
  | Some (hostname, pathname) =>
      if negb (existsb (str_eqb hostname) validHosts) then false
      else isTweetPath pathname || isArticlePath pathname
  end.

Definition tweet_url : list N :=
  u16 "https://x.com/some_user/status/1234567890?s=20".

Definition article_url : list N :=
  u16 "https://x.com/i/article/987654321".

(** ** The tweet path *)

(** The members of the syndication payload that [fetchTweetData] reads;
    a member that is absent (or null) is [None], and the members that are
    read as strings are strings. *)
Module Syndication.
Record Media := mkMedia {
  type : option (list N);
  media_url_https : option (list N)
}.
Record Photo := mkPhoto { url : option (list N) }.
Record User := mkUser {
  name : option (list N);
  screen_name : option (list N);
  profile_image_url_https : option (list N)
}.
Record Payload := mkPayload {
  mediaDetails : option (list Media);
  photos : option (list Photo);
  user : option User;
  text : option (list N);
  created_at : option (list N)
}.
End Syndication.

Module Tweet.
Record TweetData := mkTweetData {
  authorName : list N;
  authorHandle : list N;
  authorAvatar : option (list N);
  text : list N;
  date : list N;
  images : list (list N)
}.
End Tweet.

(** [x || fallback] for a member that is a string or absent. *)
Definition or_else (x : option (list N)) (fallback : list N) : list N :=
  match x with
  | Some s => if truthy s then s else fallback
  | None => fallback
  end.

(** [x && ...]: a member that is a non-empty string. *)
Definition present (x : option (list N)) : bool :=
  match x with
  | Some s => truthy s
  | None => false
  end.

(** [u.split('?')[0]]. *)
Definition before_query (u : list N) : list N :=
  takeWhile (fun c => negb (N.eqb c 63)) u.

(** Lines 281-287: the loop over [data.mediaDetails]. *)
Definition media_step (images : list (list N)) (media : Syndication.Media)
  : list (list N) :=
  if bool_decide (Syndication.type media = Some (u16 "photo"))
     && present (Syndication.media_url_https media)
  then images ++ [default [] (Syndication.media_url_https media)
                  ++ u16 "?format=jpg&name=large"]
  else images.

(** Lines 290-296: the loop over [data.photos]. *)
Definition photo_step (images : list (list N)) (photo : Syndication.Photo)
  : list (list N) :=
  if present (Syndication.url photo)
     && negb (existsb
                (fun img =>
                   includes (before_query (default [] (Syndication.url photo)))
                     img) images)
  then images ++ [default [] (Syndication.url photo)]
  else images.

(** Lines 279-306: from the payload to the tweet. *)
Definition tweet_of_payload (data : Syndication.Payload) : Tweet.TweetData :=
  let images0 :=
    match Syndication.mediaDetails data with
    | Some ms => fold_left media_step ms []
    | None => []
    end in
  let images :=
    match Syndication.photos data with
    | Some ps => fold_left photo_step ps images0
    | None => images0
    end in
  {| Tweet.authorName :=
       or_else (Syndication.user data ≫= Syndication.name) (u16 "Unknown");
     Tweet.authorHandle :=
       u16 "@" ++ or_else (Syndication.user data ≫= Syndication.screen_name)
                    (u16 "unknown");
     Tweet.authorAvatar :=
       match Syndication.user data ≫= Syndication.profile_image_url_https with
       | Some s =>
           let r := replace_first (u16 "_normal") (u16 "_400x400") s in
           if truthy r then Some r else None
       | None => None
       end;
     Tweet.text := or_else (Syndication.text data) [];
     Tweet.date := or_else (Syndication.created_at data) [];
     Tweet.images := images |}.

(** A value caught by a [catch]: an [Error] with its message, or
    something else. *)
Inductive Thrown :=
| ErrorWith (message : list N)
| NotAnError.

(** [String(n)] for a non-negative integer. *)
Fixpoint uint_units (d : Decimal.uint) : list N :=
  match d with
  | Decimal.Nil => []
  | Decimal.D0 d => 48%N :: uint_units d
  | Decimal.D1 d => 49%N :: uint_units d
  | Decimal.D2 d => 50%N :: uint_units d
  | Decimal.D3 d => 51%N :: uint_units d
  | Decimal.D4 d => 52%N :: uint_units d
  | Decimal.D5 d => 53%N :: uint_units d
  | Decimal.D6 d => 54%N :: uint_units d
  | Decimal.D7 d => 55%N :: uint_units d
  | Decimal.D8 d => 56%N :: uint_units d
  | Decimal.D9 d => 57%N :: uint_units d
  end.

Definition decimal (n : N) : list N := uint_units (N.to_uint n).

(** What [fetch] gives back when it does not throw: [response.ok],
    [response.status], and what [response.json()] does. *)
Record HttpResponse := mkHttpResponse {
  ok : bool;
  status : N;
  json : Thrown + Syndication.Payload
}.

Definition syndicationUrl (tweetId : list N) : list N :=
  u16 "https://cdn.syndication.twimg.com/tweet-result?id=" ++ tweetId
  ++ u16 "&token=0".

(** Lines 264-307. [fetch] stands for the request to the syndication
    endpoint. *)
Definition fetchTweetData (fetch : list N -> Thrown + HttpResponse)
    (tweetId : list N) : Thrown + Tweet.TweetData :=
  match fetch (syndicationUrl tweetId) with
  | inl e => inl e
  | inr response =>
      if negb (ok response)
      then inl (ErrorWith (u16 "Failed to fetch tweet: "
                           ++ decimal (status response)))
      else match json response with
           | inl e => inl e
           | inr data => inr (tweet_of_payload data)
           end
  end.

(** ** The handler *)

(** What [request.json()] and the destructuring of line 798 give: they
    throw, or the body is an object whose members [url], [authToken] and
    [csrfToken] are strings or absent. *)
Inductive RequestBody :=
| BodyThrows (e : Thrown)
| BodyObject (url authToken csrfToken : option (list N)).

(** The two kinds of answer of the handler: [NextResponse.json] with an
    error and a status, and the PDF with status 200 and its
    [Content-Disposition] header. *)
Inductive Response :=
| Json (error : list N) (status : Z)
| Pdf (pdfBuffer : list N) (contentDisposition : list N).

(** Lines 876-881: the [catch] of the handler. *)
Definition conversion_error (e : Thrown) : Response :=
  Json (u16 "Failed to convert to PDF: "
        ++ match e with
           | ErrorWith message => message
           | NotAnError => u16 "Unknown error"
           end) 500.

(** The collaborators of the handler that are not modelled further: the
    URL parser, the browser session of [scrapeArticle] up to the snapshot
    its callback reads, the request of [fetchTweetData], the two page
    templates and the PDF engine. *)
Record Collaborators := mkCollaborators {
  parseURL : list N -> option (list N * list N);
  browse : list N -> list N -> option (list N) -> Thrown + Document;
  fetch : list N -> Thrown + HttpResponse;
  generateArticleHTML : Article.ArticleData -> list N;
  generateTweetHTML : Tweet.TweetData -> list N;
  generatePDF : list N -> Thrown + list N
}.

(** Lines 312-614 around the callback: the session throws, or the
    callback is evaluated on the page. *)
Definition scrapeArticle (w : Collaborators) (articleUrl authToken : list N)
    (csrfToken : option (list N)) : Thrown + Article.ArticleData :=
  match browse w articleUrl authToken csrfToken with
  | inl e => inl e
  | inr d => inr (evaluate d)
  end.

(** Lines 866-875. *)
Definition respond_with_pdf (w : Collaborators) (html fileId : list N)
  : Response :=
  match generatePDF w html with
  | inl e => conversion_error e
  | inr pdfBuffer =>
      Pdf pdfBuffer (tpl "attachment; filename=~" ++ fileId ++ tpl ".pdf~")
  end.

(** Lines 795-882. *)
Definition POST (w : Collaborators) (request : RequestBody) : Response :=
  match request with
  | BodyThrows e => conversion_error e
  | BodyObject url authToken csrfToken =>
      if negb (present url) then Json (u16 "URL is required") 400
      else
        let url := default [] url in
        if negb (isValidTwitterUrl (parseURL w) url) then
          Json (u16 "Invalid Twitter/X URL. Please provide a valid tweet or article URL.") 400
        else if isArticleUrl url then
          match extractArticleId url with
          | None => Json (u16 "Could not extract article ID from URL.") 400
          | Some articleId =>
              if negb (present authToken) then
                Json (u16 "Articles require authentication. Please provide at least the auth_token cookie.") 400
              else
                match scrapeArticle w url (default [] authToken) csrfToken with
                | inl e => conversion_error e
                | inr articleData =>
                    match post_article articleData with
                    | JsonError error status => Json (u16 error) status
                    | Render articleData =>
                        respond_with_pdf w (generateArticleHTML w articleData)
                          (u16 "article-" ++ articleId)
                    end
                end
          end
        else
          match extractTweetId url with
          | None => Json (u16 "Could not extract tweet ID from URL.") 400
          | Some tweetId =>
              match fetchTweetData (fetch w) tweetId with
              | inl e => conversion_error e
              | inr tweetData =>
                  if falsy (Tweet.text tweetData)
                     && Nat.eqb (length (Tweet.images tweetData)) 0
                  then Json (u16 "Could not extract tweet content. The tweet may be private or deleted.") 400
                  else respond_with_pdf w (generateTweetHTML w tweetData)
                         (u16 "tweet-" ++ tweetId)
              end
          end
  end.

(** A payload that lists one photo twice, under [mediaDetails] and under
    [photos], and has no user. *)
Definition photo_payload : Syndication.Payload :=
  {| Syndication.mediaDetails :=
       Some [ {| Syndication.type := Some (u16 "photo");
                 Syndication.media_url_https :=
                   Some (u16 "https://pbs.twimg.com/media/abc.jpg") |};
              {| Syndication.type := Some (u16 "video");
                 Syndication.media_url_https :=
                   Some (u16 "https://pbs.twimg.com/media/clip.jpg") |} ];
     Syndication.photos :=
       Some [ {| Syndication.url :=
                   Some (u16 "https://pbs.twimg.com/media/abc.jpg?name=small") |} ];
     Syndication.user := None;
     Syndication.text := Some (u16 "A tweet with a photo");
     Syndication.created_at := None |}.

(** Collaborators for the examples: a parser that knows the two example
    URLs, a syndication endpoint that answers 404, and a browser and a
    PDF engine that throw. *)
Definition offline : Collaborators :=
  {| parseURL := fun u =>
       if str_eqb u tweet_url
       then Some (u16 "x.com", u16 "/some_user/status/1234567890")
       else if str_eqb u article_url
       then Some (u16 "x.com", u16 "/i/article/987654321")
       else None;
     browse := fun _ _ _ => inl (ErrorWith (u16 "net::ERR_INTERNET_DISCONNECTED"));
     fetch := fun _ =>
       inr {| ok := false; status := 404; json := inl NotAnError |};
     generateArticleHTML := fun _ => [];
     generateTweetHTML := fun _ => [];
     generatePDF := fun _ => inl NotAnError |}.

(** The seven fixed messages of the answers with status 400. *)
Definition client_errors : list (list N) :=
  map u16
    [ "URL is required";
      "Invalid Twitter/X URL. Please provide a valid tweet or article URL.";
      "Could not extract article ID from URL.";
      "Articles require authentication. Please provide at least the auth_token cookie.";
      "Could not extract article content. The article may be private or deleted.";
      "Could not extract tweet ID from URL.";
      "Could not extract tweet content. The tweet may be private or deleted."
    ]%string.

(** ** The text of a tweet *)

(** The length of the match of [/https?:\/\/t\.co\/\w+/] at the head of
    [t], if there is one. After [http] an [s] is taken when it is there
    (without it the next character could not be the colon), and the run of
    word characters is the longest one. *)
Definition link_length (t : list N) : option nat :=
  if startsWith (u16 "http") t then
    let r := drop 4 t in
    let s := match r with 115%N :: _ => 1 | _ => 0 end in
    let r' := drop s r in
    if startsWith (u16 "://t.co/") r' then
      let w := takeWhile isWord (drop 8 r') in
      if truthy w then Some (4 + s + 8 + length w) else None
    else None
  else None.

(** [t.replace(/https?:\/\/t\.co\/\w+/g, '')]: the text is read from the
    left; where the pattern matches, the match is left out and reading
    goes on after it; [skip] counts the code units of a match that are
    still to be left out. *)
Fixpoint strip_links (skip : nat) (t : list N) : list N :=
  match t with
  | [] => []
  | c :: t' =>
      match skip with
      | S k => strip_links k t'
      | 0 =>
          match link_length t with
          | Some n => strip_links (n - 1) t'
          | None => c :: strip_links 0 t'
          end
      end
  end.

(** [t.trim()]. *)
Definition trim (t : list N) : list N :=
  rev (dropWhile isSpace (rev (dropWhile isSpace t))).

(** Lines 633-635. *)
Definition cleanTweetText (t : list N) : list N :=
  trim (strip_links 0 t).

(** A page with a thumbnail of the author. *)
Definition avatar_page : Document :=
  {| avatarImg :=
       Some (u16 "https://pbs.twimg.com/profile_images/1/face_normal.jpg");
     userLinks := author_links;
     titleProbes := [Some the_title];
     container := Some [long_1; last_line];
     timeDatetime := None |}.

Definition para_short_el : Element := paragraph "Yes.".

(** ** The callback on any page *)

(** The value of a property the callback reads through a cast: the string
    the cast promises ([href] of an HTML anchor, [src] of an HTML image),
    or a value that is no string (the [SVGAnimatedString] of an SVG [a],
    the [undefined] of an element without the property). *)
Inductive Member :=
| Str (s : list N)
| NotStr.

(** An element matched by [a[href*="/"]], of any namespace: what
    [(link as HTMLAnchorElement).href] gives, and its trimmed text. *)
Record Anchor := mkAnchor { anchorHref : Member; anchorText : list N }.

(** What the callback reads from a document whose elements need not be
    HTML elements: as [Document], but with the [src] of the avatar and
    the [href] of the links as they are read. *)
Record Page := mkPage {
  pageAvatar : option Member;
  pageAnchors : list Anchor;
  pageTitleProbes : list (option (list N));
  pageContainer : option (list Element);
  pageDatetime : option (list N)
}.

(** The two places where the callback throws a [TypeError]: line 388,
    [.src.replace] on a [src] that is no string, and line 395,
    [href.match] on an [href] that is no string. *)
Inductive TypeError :=
| SrcIsNotAString
| HrefIsNotAString.

(** Lines 393-404 on any anchors: the loop of [author_loop], which throws
    at the first [href] that is no string, if it gets there. *)
Fixpoint author_scan (a : Author) (l : list Anchor) : TypeError + Author :=
  match l with
  | [] => inr a
  | x :: rest =>
      match anchorHref x with
      | NotStr => inl HrefIsNotAString
      | Str h =>
          let '(a', stop) :=
            author_step a {| href := h; linkText := anchorText x |} in
          if stop then inr a' else author_scan a' rest
      end
  end.

(** Lines 379-599 on any page: the callback of [page.evaluate], which
    throws or returns the article. *)
Definition callback (p : Page) : TypeError + Article.ArticleData :=
  match pageAvatar p with
  | Some NotStr => inl SrcIsNotAString
  | avatar =>
      let authorAvatar :=
        match avatar with
        | Some (Str s) => replace_first (u16 "_normal") (u16 "_400x400") s
        | _ => []
        end in
      match author_scan {| name := []; handle := [] |} (pageAnchors p) with
      | inl e => inl e
      | inr a =>
          let title := extractTitle (pageTitleProbes p) in
          let content :=
            match pageContainer p with
            | Some els =>
                filterContent
                  (trailing_drop (classify (name a) (handle a) title els))
            | None => []
            end in
          inr {| Article.title := title;
                 Article.authorName := name a;
                 Article.authorHandle := handle a;
                 Article.authorAvatar := authorAvatar;
                 Article.content := content;
                 Article.date := default [] (pageDatetime p) |}
      end
  end.

(** The anchors with a string [href], as links. *)
Definition string_links (l : list Anchor) : list Link :=
  omap (fun x => match anchorHref x with
                 | Str h => Some {| href := h; linkText := anchorText x |}
                 | NotStr => None
                 end) l.

(** The part of a page that [evaluate] reads. *)
Definition document_of (p : Page) : Document :=
  {| avatarImg := match pageAvatar p with
                  | Some (Str s) => Some s
                  | _ => None
                  end;
     userLinks := string_links (pageAnchors p);
     titleProbes := pageTitleProbes p;
     container := pageContainer p;
     timeDatetime := pageDatetime p |}.

(** A document of HTML elements, as a page. *)
Definition page_of (d : Document) : Page :=
  {| pageAvatar := Str <$> avatarImg d;
     pageAnchors :=
       map (fun l => {| anchorHref := Str (href l);
                        anchorText := linkText l |}) (userLinks d);
     pageTitleProbes := titleProbes d;
     pageContainer := container d;
     pageDatetime := timeDatetime d |}.

(** Lines 608-613 and 832-842, 876-881: what the handler does with what
    the callback did. A throw of the callback rejects [page.evaluate], is
    thrown again by [scrapeArticle] and caught by the handler, which
    answers with status 500; [describe] is the message the engine gives
    to the error. Otherwise the handler answers with the error of the
    empty extraction, or goes on with the article. *)
Definition after_callback (describe : TypeError -> list N)
    (r : TypeError + Article.ArticleData) : Response + Article.ArticleData :=
  match r with
  | inl e => inl (conversion_error (ErrorWith (describe e)))
  | inr articleData =>
      match post_article articleData with
      | JsonError error status => inl (Json (u16 error) status)
      | Render articleData => inr articleData
      end
  end.

(** The page of the scenario with a logo that is an SVG link in front of
    the links of the author. *)
Definition svg_anchor_page : Page :=
  {| pageAvatar := None;
     pageAnchors :=
       {| anchorHref := NotStr; anchorText := [] |}
       :: pageAnchors (page_of scenario_page);
     pageTitleProbes := titleProbes scenario_page;
     pageContainer := container scenario_page;
     pageDatetime := None |}.
(** * Properties *)

(** ** Strings *)

Lemma startsWith_ci (p t : list N) :
  startsWith p t = true -> ci_startsWith p t = true.
Proof.
  revert t; induction p as [|a p IH]; intros [|b t]; simpl; try done.
  intros [Hab Hp]%andb_prop. apply N.eqb_eq in Hab as ->.
  unfold ci_eqb. rewrite N.eqb_refl. simpl. by apply IH.
Qed.

Lemma ci_startsWith_length (p t : list N) :
  ci_startsWith p t = true -> length p <= length t.
Proof.
  revert t; induction p as [|a p IH]; intros [|b t]; simpl; try done; try lia.
  intros [_ Hp]%andb_prop. apply IH in Hp. lia.
Qed.

Lemma ci_equals_length (p t : list N) :
  ci_equals p t = true -> length t = length p.
Proof.
  unfold ci_equals. intros [_ H]%andb_prop. by apply Nat.eqb_eq in H.
Qed.

Lemma rawText_length (t : list N) :
  length (rawText t) <= length t <= length (rawText t) + 3.
Proof.
  unfold rawText, slice_from. destruct (startsWith _ t); [|lia].
  rewrite length_drop. lia.
Qed.

(** A call-to-action text has at least the nine code units of "Subscribe". *)
Lemma is_cta_length (raw : list N) : is_cta raw = true -> 9 <= length raw.
Proof.
  unfold is_cta. intros H.
  apply orb_prop in H as [H|H]; [apply orb_prop in H as [H|H]|].
  - apply ci_equals_length in H. rewrite H. cbn. lia.
  - apply ci_startsWith_length in H. cbn in H. lia.
  - apply ci_startsWith_length in H. cbn in H. lia.
Qed.

Example skipPatterns_examples :
  map (fun t => existsb (fun p => p (u16 t)) skipPatterns)
    ["@follow_me"; "Jan 5"; "LOG IN"; "more from us"; "Copy link";
     "Log in now"; "@two words"; "January 5"; "Followers"]%string
  = [true; true; true; true; true; false; false; false; false].
Proof. reflexivity. Qed.

Example matches_profile_root_examples :
  map (fun h => is_user_link {| href := u16 h; linkText := [] |})
    ["https://x.com/follow_me"; "https://x.com/follow_me/status/1";
     "https://x.com/i/article"; "https://x.com/"]%string
  = [true; false; false; false].
Proof. reflexivity. Qed.

(** ** The noise filter *)

Lemma filter_callback_cta (found : bool) (item : ContentItem) :
  removed_as_cta item = true -> filter_callback found item = (false, found).
Proof.
  unfold removed_as_cta, filter_callback. destruct (type item); [|done].
  by intros ->.
Qed.

Lemma filter_callback_true (item : ContentItem) :
  filter_callback true item = (negb (removed_as_cta item), true).
Proof.
  unfold removed_as_cta, filter_callback. destruct (type item); [|done].
  by destruct (is_cta _).
Qed.

Lemma filter_from_true (c : list ContentItem) :
  filter_from true c = List.filter (fun it => negb (removed_as_cta it)) c.
Proof.
  induction c as [|item c IH]; [done|].
  simpl. rewrite filter_callback_true. rewrite IH. by destruct (negb _).
Qed.

Lemma filter_from_app (found : bool) (c1 c2 : list ContentItem) :
  filter_from found (c1 ++ c2)
  = filter_from found c1 ++ filter_from (flag_after found c1) c2.
Proof.
  revert found; induction c1 as [|item c1 IH]; intros found; [done|].
  simpl. destruct (filter_callback found item) as [keep found'] eqn:E.
  simpl. rewrite IH. by destruct keep.
Qed.

Lemma flag_after_app (found : bool) (c1 c2 : list ContentItem) :
  flag_after found (c1 ++ c2) = flag_after (flag_after found c1) c2.
Proof.
  revert found; induction c1 as [|item c1 IH]; intros found; [done|].
  simpl. apply IH.
Qed.

(** C7. Trailing drop: a collected sequence of more than one item loses
    exactly its last item; a sequence of one item, or none, is left as it
    is; so two items become one and one item stays. *)
Theorem trailing_drop_last (c : list ContentItem) :
  (forall c' x, c = c' ++ [x] -> c' <> [] -> trailing_drop c = c') /\
  (length c <= 1 -> trailing_drop c = c) /\
  (length c = 2 -> length (trailing_drop c) = 1).
Proof.
  unfold trailing_drop. repeat split.
  - intros c' x -> Hne.
    assert (1 < length (c' ++ [x])) as Hlen.
    { rewrite length_app. destruct c'; simpl; [done|lia]. }
    apply Nat.ltb_lt in Hlen as ->. apply removelast_last.
  - intros Hlen. by apply Nat.ltb_ge in Hlen as ->.
  - intros Hlen. destruct c as [|a [|b [|? ?]]]; simpl in *; done.
Qed.

Lemma trailing_drop_last_witness :
  trailing_drop [mkItem text (u16 "one"); mkItem image (u16 "two")]
  = [mkItem text (u16 "one")]
  /\ trailing_drop [mkItem text (u16 "one")] = [mkItem text (u16 "one")].
Proof.
  split.
  - apply (proj1 (trailing_drop_last
             [mkItem text (u16 "one"); mkItem image (u16 "two")])
             [mkItem text (u16 "one")] (mkItem image (u16 "two")));
      [reflexivity | discriminate].
  - apply (proj1 (proj2 (trailing_drop_last [mkItem text (u16 "one")]))).
    simpl. lia.
Defined.

(** C8. Call-to-action removal: a text item whose text (after the heading
    marker) is "Subscribe", or matches one of the other two call-to-action
    patterns, is removed wherever it stands and whatever the flag is, and
    without touching the flag: the filter gives what it gives without the
    item. Alone, it leaves the empty sequence. *)
Theorem cta_removed_anywhere (found : bool) (item : ContentItem)
    (before after : list ContentItem) :
  removed_as_cta item = true ->
  removed_as_cta (mkItem text (u16 "Subscribe")) = true
  /\ filter_from found (before ++ item :: after)
     = filter_from found (before ++ after)
  /\ filterContent [item] = [].
Proof.
  intros Hcta. split; [reflexivity|]. split.
  - rewrite !filter_from_app. f_equal. simpl.
    by rewrite (filter_callback_cta _ _ Hcta).
  - unfold filterContent. simpl. by rewrite (filter_callback_cta _ _ Hcta).
Qed.

Lemma cta_removed_anywhere_witness :
  filter_from false ([body_paragraph] ++ subscribe_item :: [body_paragraph])
  = filter_from false ([body_paragraph] ++ [body_paragraph])
  /\ filterContent [subscribe_item] = [].
Proof.
  apply (cta_removed_anywhere false subscribe_item
           [body_paragraph] [body_paragraph]).
  reflexivity.
Defined.

(** C3. Flag semantics of the noise filter: the flag starts false; while
    it is false, a text item that is not a call to action and has at least
    50 code units is kept and the rest is filtered with the flag true, one
    with fewer than 10 is dropped and one with 10 to 49 is kept, both with
    the flag still false; once the flag is true, exactly the
    call-to-action items are removed from the rest. *)
Theorem noise_filter_flag_semantics (item : ContentItem)
    (rest : list ContentItem) :
  type item = text ->
  is_cta (rawText (value item)) = false ->
  filterContent (item :: rest) = filter_from false (item :: rest)
  /\ (50 <= length (rawText (value item)) ->
      filter_from false (item :: rest) = item :: filter_from true rest)
  /\ (length (rawText (value item)) < 10 ->
      filter_from false (item :: rest) = filter_from false rest)
  /\ (10 <= length (rawText (value item)) < 50 ->
      filter_from false (item :: rest) = item :: filter_from false rest)
  /\ filter_from true rest
     = List.filter (fun it => negb (removed_as_cta it)) rest.
Proof.
  intros Hty Hcta. split; [reflexivity|].
  assert (forall b1 b2 : bool,
    (if 50 <=? length (rawText (value item)) then (true, true)
     else if length (rawText (value item)) <? 10 then (false, false)
          else (true, false)) = (b1, b2) ->
    filter_callback false item = (b1, b2)) as Hcb.
  { intros b1 b2 <-. unfold filter_callback. by rewrite Hty, Hcta. }
  repeat split.
  - intros Hn. simpl. rewrite (Hcb true true); [done|].
    by apply Nat.leb_le in Hn as ->.
  - intros Hn. simpl. rewrite (Hcb false false); [done|].
    destruct (50 <=? _) eqn:E; [apply Nat.leb_le in E; lia|].
    by apply Nat.ltb_lt in Hn as ->.
  - intros [Hlo Hhi]. simpl. rewrite (Hcb true false); [done|].
    apply Nat.leb_gt in Hhi as ->. by apply Nat.ltb_ge in Hlo as ->.
  - apply filter_from_true.
Qed.

Lemma noise_filter_flag_semantics_witness :
  filter_from false [para_60; para_8] = para_60 :: filter_from true [para_8]
  /\ filter_from false [para_5; para_60] = filter_from false [para_60]
  /\ filter_from false [para_20; para_5] = para_20 :: filter_from false [para_5].
Proof.
  split; [|split].
  - apply (proj1 (proj2
      (noise_filter_flag_semantics para_60 [para_8] eq_refl eq_refl))).
    vm_compute; lia.
  - apply (proj1 (proj2 (proj2
      (noise_filter_flag_semantics para_5 [para_60] eq_refl eq_refl)))).
    vm_compute; lia.
  - apply (proj1 (proj2 (proj2 (proj2
      (noise_filter_flag_semantics para_20 [para_5] eq_refl eq_refl))))).
    vm_compute; lia.
Defined.

(** C2, as stated, fails: of three paragraphs of 5, 60 and 8 code units,
    none a call to action, the filter keeps the second and the third. *)
Lemma length_gate_counterexample :
  map (fun it => length (value it)) [para_5; para_60; para_8] = [5; 60; 8]
  /\ map removed_as_cta [para_5; para_60; para_8] = [false; false; false]
  /\ filterContent [para_5; para_60; para_8] = [para_60; para_8]
  /\ filterContent [para_5; para_60; para_8] <> [para_60].
Proof. repeat split; [reflexivity .. | discriminate]. Qed.

(** C2, amended. Length gate: of three text items of 5, 60 and 8 code
    units in that order, the second not a call to action, the filter drops
    the first, which is short while the flag is false, keeps the second,
    which sets the flag, and keeps the third, which comes after the flag is
    set: the output is the 60-unit item followed by the 8-unit item. *)
Theorem length_gate (a b c : ContentItem) :
  type a = text -> type b = text -> type c = text ->
  length (value a) = 5 -> length (value b) = 60 -> length (value c) = 8 ->
  removed_as_cta b = false ->
  filterContent [a; b; c] = [b; c].
Proof.
  intros Ha Hb Hc La Lb Lc Hcta.
  pose proof (rawText_length (value a)) as Ra.
  pose proof (rawText_length (value b)) as Rb.
  pose proof (rawText_length (value c)) as Rc.
  unfold removed_as_cta in Hcta. rewrite Hb in Hcta.
  assert (filter_callback false a = (false, false)) as Ea.
  { unfold filter_callback. rewrite Ha. cbv beta iota zeta.
    destruct (is_cta (rawText (value a))); [done|].
    change (negb false) with true. cbv iota.
    assert ((50 <=? length (rawText (value a))) = false) as ->
      by (apply Nat.leb_gt; lia).
    by assert ((length (rawText (value a)) <? 10) = true) as ->
      by (apply Nat.ltb_lt; lia). }
  assert (filter_callback false b = (true, true)) as Eb.
  { unfold filter_callback. rewrite Hb. cbv beta iota zeta.
    rewrite Hcta. change (negb false) with true. cbv iota.
    by assert ((50 <=? length (rawText (value b))) = true) as ->
      by (apply Nat.leb_le; lia). }
  assert (filter_callback true c = (true, true)) as Ec.
  { rewrite filter_callback_true. unfold removed_as_cta. rewrite Hc.
    destruct (is_cta (rawText (value c))) eqn:E; [|done].
    apply is_cta_length in E. lia. }
  unfold filterContent. simpl. by rewrite Ea, Eb, Ec.
Qed.

Lemma length_gate_witness :
  filterContent [para_5; para_60; para_8] = [para_60; para_8].
Proof.
  apply (length_gate para_5 para_60 para_8); reflexivity.
Defined.

(** ** The caller *)

Lemma post_article_cases (a : Article.ArticleData) :
  (Article.title a = [] /\ Article.content a = []
   /\ post_article a = JsonError extraction_empty_message 400)
  \/ (~ (Article.title a = [] /\ Article.content a = [])
      /\ post_article a = Render a).
Proof.
  unfold post_article.
  destruct (Article.title a) as [|c t] eqn:Et;
    destruct (Article.content a) as [|i l] eqn:Ec; simpl.
  - by left.
  - right. split; [|done]. by intros [_ ?].
  - right. split; [|done]. by intros [? _].
  - right. split; [|done]. by intros [? _].
Qed.

(** ** The classification pass *)

Section PassProperties.

Variables (authorName authorHandle title : list N).

Local Abbreviation skipped' := (skipped authorName authorHandle title).
Local Abbreviation footer_test' := (footer_test authorName).
Local Abbreviation text_branch' := (text_branch authorName authorHandle title).
Local Abbreviation body' := (body authorName authorHandle title).
Local Abbreviation loop' := (loop authorName authorHandle title).
Local Abbreviation classify' := (classify authorName authorHandle title).
Local Abbreviation candidate' := (candidate authorName authorHandle title).

(** A text that passes the skip tests never passes the footer test: the
    pattern list holds [/^More from/i], and the author name is one of the
    three strings compared just before. *)
Lemma skipped_no_footer (st : LoopState) (t : list N) :
  skipped' st t = false -> footer_test' st t = false.
Proof.
  unfold skipped, footer_test. intros H.
  apply orb_false_elim in H as [H Hauth].
  apply orb_false_elim in H as [_ Hpat].
  apply orb_false_elim in Hauth as [Hauth _].
  apply orb_false_elim in Hauth as [Hname _].
  rewrite Hname, andb_false_r, orb_false_r.
  destruct (startsWith (u16 "More from") t) eqn:E; [|done].
  apply startsWith_ci in E.
  assert (existsb (fun p => p t) skipPatterns = true) as Hex; [|congruence].
  apply existsb_exists. exists (ci_startsWith (u16 "More from")).
  split; [|done]. unfold skipPatterns. do 7 right. by left.
Qed.

Lemma text_branch_reachedFooter (st : LoopState) (el : Element) :
  reachedFooter (text_branch' st el) = reachedFooter st.
Proof.
  unfold text_branch.
  destruct (skipped' st _) eqn:Hs; [done|].
  rewrite (skipped_no_footer _ _ Hs).
  unfold lead_in, emit_text.
  repeat (match goal with |- context [if ?b then _ else _] => destruct b end;
          try done).
Qed.

Lemma image_branch_reachedFooter (st : LoopState) (el : Element) :
  reachedFooter (image_branch st el) = reachedFooter st.
Proof.
  unfold image_branch.
  repeat (match goal with |- context [if ?b then _ else _] => destruct b end;
          try done).
Qed.

Lemma body_reachedFooter (st : LoopState) (el : Element) :
  reachedFooter (body' st el) = reachedFooter st.
Proof.
  unfold body. destruct (bool_decide _).
  - apply image_branch_reachedFooter.
  - apply text_branch_reachedFooter.
Qed.

(** The footer flag is never set, so the loop never leaves early: it is
    the left fold of its body. *)
Lemma loop_fold (st : LoopState) (els : list Element) :
  reachedFooter st = false -> loop' st els = fold_left body' els st.
Proof.
  revert st; induction els as [|el els IH]; intros st Hst; [done|].
  simpl. rewrite Hst, body_reachedFooter, Hst.
  apply IH. by rewrite body_reachedFooter.
Qed.

Lemma loop_reachedFooter (st : LoopState) (els : list Element) :
  reachedFooter st = false -> reachedFooter (loop' st els) = false.
Proof.
  revert st; induction els as [|el els IH]; intros st Hst; [done|].
  simpl. rewrite Hst, body_reachedFooter, Hst.
  apply IH. by rewrite body_reachedFooter.
Qed.

Lemma loop_app (st : LoopState) (els1 els2 : list Element) :
  reachedFooter st = false ->
  loop' st (els1 ++ els2) = loop' (loop' st els1) els2.
Proof.
  intros Hst.
  rewrite (loop_fold (loop' st els1)) by (by apply loop_reachedFooter).
  rewrite !loop_fold by done. apply fold_left_app.
Qed.

Lemma loop_cons (st : LoopState) (el : Element) (els : list Element) :
  reachedFooter st = false -> loop' st (el :: els) = loop' (body' st el) els.
Proof.
  intros Hst. rewrite !loop_fold; try done. by rewrite body_reachedFooter.
Qed.

(** *** Text nodes *)

Lemma candidate_same_seenTexts (st st' : LoopState) (el : Element) :
  seenTexts st = seenTexts st' -> candidate' st el = candidate' st' el.
Proof. unfold candidate, skipped. by intros ->. Qed.

(** A candidate goes through the lead-in block and, unless that block
    ends the iteration, through the leaf test and the push. *)
Lemma body_candidate (st : LoopState) (el : Element) :
  candidate' st el = true ->
  body' st el
  = (if snd (lead_in st el) then fst (lead_in st el)
     else emit_text (fst (lead_in st el)) el).
Proof.
  unfold candidate. intros [Htag Hs]%andb_prop.
  apply negb_true_iff in Htag, Hs.
  unfold body, text_branch. rewrite Htag, Hs.
  rewrite (skipped_no_footer _ _ Hs). by destruct (lead_in st el).
Qed.

Lemma emit_text_leaf (st : LoopState) (el : Element) :
  leaf el = true ->
  emit_text st el = push (text_item el) (add_seenText (textContent el) st).
Proof.
  unfold leaf, emit_text, text_item. intros ->%negb_true_iff.
  by destruct (heading_like el).
Qed.

Lemma emit_text_container (st : LoopState) (el : Element) :
  leaf el = false -> emit_text st el = st.
Proof. unfold leaf, emit_text. by intros ->%negb_false_iff. Qed.

Lemma lead_in_short (st : LoopState) (el : Element) :
  foundFirstContent st = false -> short el = true ->
  lead_in st el
  = (incr_skippedAfterTitle st, N.leb (skippedAfterTitle st + 1) 6).
Proof.
  unfold short, substantial, lead_in.
  intros -> [-> ->]%negb_true_iff%orb_false_elim. done.
Qed.

Lemma lead_in_substantial (st : LoopState) (el : Element) :
  foundFirstContent st = false -> substantial el = true ->
  lead_in st el = (start_content st, false).
Proof.
  unfold substantial, lead_in. intros -> H. simpl.
  destruct (40 <? _); [done|]. simpl in H. by rewrite H.
Qed.

(** A short candidate met before content has started, while fewer than
    six have been discarded, is discarded: only the counter changes. *)
Lemma body_short_discarded (st : LoopState) (el : Element) :
  candidate' st el = true -> foundFirstContent st = false ->
  short el = true -> (skippedAfterTitle st < 6)%N ->
  body' st el = incr_skippedAfterTitle st.
Proof.
  intros Hc Hf Hs Hk. rewrite (body_candidate _ _ Hc), (lead_in_short _ _ Hf Hs).
  simpl. by assert ((skippedAfterTitle st + 1 <=? 6)%N = true) as ->
    by (apply N.leb_le; lia).
Qed.

(** From the seventh on, a short candidate is kept, and content has still
    not started. *)
Lemma body_short_kept (st : LoopState) (el : Element) :
  candidate' st el = true -> foundFirstContent st = false ->
  short el = true -> (6 <= skippedAfterTitle st)%N -> leaf el = true ->
  body' st el
  = push (text_item el)
      (add_seenText (textContent el) (incr_skippedAfterTitle st)).
Proof.
  intros Hc Hf Hs Hk Hl.
  rewrite (body_candidate _ _ Hc), (lead_in_short _ _ Hf Hs). simpl.
  assert ((skippedAfterTitle st + 1 <=? 6)%N = false) as ->
    by (apply N.leb_gt; lia).
  by apply emit_text_leaf.
Qed.

(** A substantial candidate starts the content and resets the counter,
    whether or not it is then emitted. *)
Lemma body_substantial (st : LoopState) (el : Element) :
  candidate' st el = true -> foundFirstContent st = false ->
  substantial el = true ->
  body' st el = emit_text (start_content st) el.
Proof.
  intros Hc Hf Hs.
  by rewrite (body_candidate _ _ Hc), (lead_in_substantial _ _ Hf Hs).
Qed.

Lemma set_skippedAfterTitle_id (st : LoopState) :
  set_skippedAfterTitle (skippedAfterTitle st) st = st.
Proof. by destruct st. Qed.

(** A run of short candidates that stays within the cap of six only moves
    the counter. *)
Lemma loop_discards (shorts : list Element) (st : LoopState) :
  reachedFooter st = false -> foundFirstContent st = false ->
  Forall (fun el => candidate' st el = true /\ short el = true) shorts ->
  (skippedAfterTitle st + N.of_nat (length shorts) <= 6)%N ->
  loop' st shorts
  = set_skippedAfterTitle
      (skippedAfterTitle st + N.of_nat (length shorts)) st.
Proof.
  revert st; induction shorts as [|el shorts IH]; intros st Hr Hf Hall Hk.
  - simpl. by rewrite N.add_0_r, set_skippedAfterTitle_id.
  - apply Forall_cons in Hall as [[Hc Hs] Hall].
    rewrite (loop_cons _ _ _ Hr), (body_short_discarded _ _ Hc Hf Hs)
      by (simpl length in Hk; lia).
    rewrite IH; try done.
    + unfold set_skippedAfterTitle, incr_skippedAfterTitle. simpl.
      f_equal. lia.
    + simpl in *. lia.
Qed.

(** C4, amended. Lead-in suppression, with the threshold of the code: a
    node is substantial when it is heading-like or has more than 40 code
    units, and short otherwise. Before the first substantial node up to
    six short nodes are discarded; a substantial node after at most six of
    them is kept and starts the content; after six discarded ones a seventh
    short node is kept, and so is the long node that follows it. *)
Theorem lead_in_suppression (shorts : list Element) (s7 long : Element) :
  length shorts = 6 ->
  Forall (fun el => candidate' initial el = true /\ short el = true) shorts ->
  candidate' initial s7 = true -> short s7 = true -> leaf s7 = true ->
  candidate' initial long = true -> substantial long = true ->
  leaf long = true -> textContent long <> textContent s7 ->
  (forall k, classify' (take k shorts) = [])
  /\ (forall k,
        content (loop' initial (take k shorts ++ [long])) = [text_item long]
        /\ foundFirstContent (loop' initial (take k shorts ++ [long])) = true)
  /\ classify' (shorts ++ [s7]) = [text_item s7]
  /\ classify' (shorts ++ [s7; long]) = [text_item s7; text_item long].
Proof.
  intros Hlen Hall Hc7 Hs7 Hl7 Hcl Hsl Hll Hne.
  assert (forall k, loop' initial (take k shorts)
            = set_skippedAfterTitle (N.of_nat (length (take k shorts))) initial)
    as Hrun.
  { intros k. rewrite loop_discards; try done.
    - by apply Forall_take.
    - rewrite length_take. simpl. lia. }
  assert (loop' initial shorts = set_skippedAfterTitle 6 initial) as Hsix.
  { specialize (Hrun 6). by rewrite take_ge, Hlen in Hrun by lia. }
  assert (loop' initial (shorts ++ [s7])
          = push (text_item s7)
              (add_seenText (textContent s7)
                 (set_skippedAfterTitle 7 initial))) as Hseven.
  { rewrite loop_app, Hsix, loop_cons by done. simpl.
    by rewrite body_short_kept. }
  repeat split.
  - intros k. unfold classify. by rewrite Hrun.
  - rewrite loop_app, Hrun, loop_cons by done. simpl.
    rewrite body_substantial, emit_text_leaf; done.
  - rewrite loop_app, Hrun, loop_cons by done. simpl.
    rewrite body_substantial, emit_text_leaf; done.
  - unfold classify. by rewrite Hseven.
  - unfold classify.
    change (shorts ++ [s7; long]) with (shorts ++ [s7] ++ [long]).
    rewrite app_assoc, loop_app, Hseven, loop_cons by done. simpl.
    rewrite body_substantial, emit_text_leaf; try done.
    unfold candidate in *. apply andb_true_intro.
    apply andb_prop in Hcl as [Htag Hsk]. split; [done|].
    apply negb_true_iff in Hsk. apply negb_true_iff.
    unfold skipped in *. simpl seenTexts in *.
    apply orb_false_elim in Hsk as [Hsk Hauth].
    apply orb_false_elim in Hsk as [Hsk Hpat].
    apply orb_false_elim in Hsk as [Hshort _].
    rewrite Hshort, Hpat, Hauth, !orb_false_r. simpl.
    apply bool_decide_eq_false.
    rewrite elem_of_union, elem_of_singleton, elem_of_empty. tauto.
Qed.

End PassProperties.

Lemma lead_in_suppression_witness :
  classify the_name the_handle the_title (six_shorts ++ [seventh_short; long_1])
  = [text_item seventh_short; text_item long_1].
Proof.
  apply (lead_in_suppression the_name the_handle the_title
           six_shorts seventh_short long_1); try reflexivity.
  - repeat constructor.
  - discriminate.
Defined.

(** C4, as stated, fails: a node of exactly 40 code units is not
    substantial. At the head of the page it is discarded as a short
    lead-in node, and after six short nodes it is kept without starting
    the content. *)
Lemma lead_in_counterexample :
  length (textContent node_40) = 40
  /\ heading_like node_40 = false
  /\ forallb (fun el => (length (textContent el) <? 40)
                        && negb (heading_like el)) six_shorts = true
  /\ classify the_name the_handle the_title [node_40; long_1]
     = [text_item long_1]
  /\ foundFirstContent
       (loop the_name the_handle the_title initial (six_shorts ++ [node_40]))
     = false.
Proof. repeat split; vm_compute; reflexivity. Qed.

(** *** Images *)

Lemma image_urls_app (c1 c2 : list ContentItem) :
  image_urls (c1 ++ c2) = image_urls c1 ++ image_urls c2.
Proof. apply omap_app. Qed.

Lemma image_urls_sublist (c1 c2 : list ContentItem) :
  c1 `sublist_of` c2 -> image_urls c1 `sublist_of` image_urls c2.
Proof.
  unfold image_urls. induction 1 as [|x l1 l2 _ IH|x l1 l2 _ IH]; simpl.
  - constructor.
  - destruct (type x); [done|]. by constructor.
  - destruct (type x); [done|]. by constructor.
Qed.

Lemma image_qualifies_seen (seen : gset (list N)) (s : list N) :
  image_qualifies seen s
  = image_qualifies ∅ s && negb (bool_decide (s ∈ seen)).
Proof.
  unfold image_qualifies.
  rewrite (bool_decide_eq_false_2 (s ∈ (∅ : gset (list N))))
    by apply not_elem_of_empty.
  simpl. rewrite andb_true_r.
  rewrite <- !andb_assoc. do 5 f_equal. apply andb_comm.
Qed.

Section ImageProperties.

Variables (authorName authorHandle title : list N).

Local Abbreviation body' := (body authorName authorHandle title).
Local Abbreviation loop' := (loop authorName authorHandle title).
Local Abbreviation classify' := (classify authorName authorHandle title).
Local Abbreviation candidate' := (candidate authorName authorHandle title).

(** The branch of a qualifying image: its URL joins the seen set first;
    then it is pushed when content has started or when it is the first
    image before that, and dropped otherwise. *)
Lemma body_image (st : LoopState) (el : Element) :
  qualifying_image st el = true ->
  body' st el
  = if foundFirstContent st
    then push (image_item el) (add_seenImage (src el) st)
    else if N.eqb (headerImageCount st + 1) 1
         then push (image_item el)
                (incr_headerImageCount (add_seenImage (src el) st))
         else incr_headerImageCount (add_seenImage (src el) st).
Proof.
  unfold qualifying_image, body, image_branch. intros [-> ->]%andb_prop.
  simpl. by destruct (foundFirstContent st).
Qed.

Lemma body_image_rejected (st : LoopState) (el : Element) :
  tagName el = IMG -> qualifying_image st el = false -> body' st el = st.
Proof.
  unfold qualifying_image, body, image_branch. intros Htag.
  rewrite (bool_decide_eq_true_2 _ Htag). simpl. by intros ->.
Qed.

(** What an iteration does to the seen set and to the image items. *)
Lemma body_image_effect (st : LoopState) (el : Element) :
  (qualifying_image st el = true
   /\ seenImages (body' st el) = {[ src el ]} ∪ seenImages st
   /\ (image_urls (content (body' st el)) = image_urls (content st)
       \/ image_urls (content (body' st el))
          = image_urls (content st) ++ [src el]))
  \/ (qualifying_image st el = false
      /\ seenImages (body' st el) = seenImages st
      /\ image_urls (content (body' st el)) = image_urls (content st)).
Proof.
  destruct (qualifying_image st el) eqn:Hq.
  - left. split; [done|]. rewrite (body_image _ _ Hq).
    destruct (foundFirstContent st); [|destruct (N.eqb _ 1)]; simpl.
    + split; [done|]. right. by rewrite image_urls_app.
    + split; [done|]. right. by rewrite image_urls_app.
    + split; [done|]. by left.
  - right. split; [done|].
    destruct (bool_decide (tagName el = IMG)) eqn:Htag.
    + apply bool_decide_eq_true in Htag.
      by rewrite (body_image_rejected _ _ Htag Hq).
    + unfold body, text_branch. rewrite Htag.
      destruct (skipped _ _ _ _ _) eqn:Hs; [done|].
      rewrite (skipped_no_footer _ _ _ _ _ Hs).
      unfold lead_in, emit_text.
      repeat (match goal with
              | |- context [if ?b then _ else _] => destruct b
              end; simpl; rewrite ?image_urls_app, ?app_nil_r; try done).
Qed.

(** Before content has started and once one image has been counted, a run
    of images leaves the collected items as they are. *)
Lemma loop_header_images (imgs : list Element) (st : LoopState) :
  reachedFooter st = false -> foundFirstContent st = false ->
  headerImageCount st <> 0%N ->
  Forall (fun el => tagName el = IMG) imgs ->
  content (loop' st imgs) = content st
  /\ foundFirstContent (loop' st imgs) = false
  /\ seenTexts (loop' st imgs) = seenTexts st
  /\ (forall s, s ∈ seenImages (loop' st imgs) ->
        s ∈ seenImages st \/ s ∈ map src imgs).
Proof.
  revert st; induction imgs as [|el imgs IH]; intros st Hr Hf Hn Hall.
  - simpl. repeat split; auto.
  - apply Forall_cons in Hall as [Htag Hall]. rewrite (loop_cons _ _ _ _ _ _ Hr).
    destruct (qualifying_image st el) eqn:Hq.
    + rewrite (body_image _ _ Hq), Hf.
      assert ((headerImageCount st + 1 =? 1)%N = false) as ->
        by (apply N.eqb_neq; lia).
      destruct (IH (incr_headerImageCount (add_seenImage (src el) st)))
        as (Hc & Hf' & Ht & Hi); try done.
      { simpl. lia. }
      repeat split; try done.
      intros s Hs. apply Hi in Hs as [Hs|Hs].
      * simpl in Hs. apply elem_of_union in Hs as [Hs|Hs]; [|by left].
        apply elem_of_singleton in Hs as ->. right. simpl. left.
      * right. simpl. by right.
    + rewrite (body_image_rejected _ _ Htag Hq).
      destruct (IH st) as (Hc & Hf' & Ht & Hi); try done.
      repeat split; try done.
      intros s Hs. apply Hi in Hs as [Hs|Hs]; [by left|].
      right. simpl. by right.
Qed.

(** Once content has started, a run of fresh, distinct images that pass
    the URL tests is pushed whole. *)
Lemma loop_content_images (imgs : list Element) (st : LoopState) :
  reachedFooter st = false -> foundFirstContent st = true ->
  Forall (fun el => tagName el = IMG /\ image_qualifies ∅ (src el) = true)
    imgs ->
  NoDup (map src imgs) ->
  (forall s, s ∈ map src imgs -> s ∉ seenImages st) ->
  content (loop' st imgs) = content st ++ map image_item imgs.
Proof.
  revert st; induction imgs as [|el imgs IH]; intros st Hr Hf Hall Hnd Hfresh.
  - simpl. by rewrite app_nil_r.
  - apply Forall_cons in Hall as [[Htag Hurl] Hall].
    simpl in Hnd. apply NoDup_cons in Hnd as [Hnotin Hnd].
    assert (qualifying_image st el = true) as Hq.
    { unfold qualifying_image.
      rewrite (bool_decide_eq_true_2 _ Htag), image_qualifies_seen, Hurl.
      simpl. apply negb_true_iff, bool_decide_eq_false, Hfresh. simpl. left. }
    rewrite (loop_cons _ _ _ _ _ _ Hr), (body_image _ _ Hq), Hf, IH;
      try done.
    + simpl. by rewrite <- app_assoc.
    + intros s Hs. simpl. rewrite elem_of_union, elem_of_singleton.
      intros [->|Hin]; [done|]. apply (Hfresh s); [|done]. simpl. by right.
Qed.

(** C5, amended. Image cap, with the flag of the code: content has started
    once a text node that passes the skip tests and is heading-like or has
    more than 40 code units has been met, whether or not that node is then
    emitted. Of the qualifying images met before that, only the first is
    kept; every qualifying image met after it is kept. So a page of
    qualifying images alone yields its first image, and with one such text
    node among them the images after the node are all kept. *)
Theorem pre_content_image_cap (img1 txt : Element)
    (before after : list Element) :
  Forall (fun el => tagName el = IMG /\ image_qualifies ∅ (src el) = true)
    (img1 :: before ++ after) ->
  NoDup (map src (img1 :: before ++ after)) ->
  candidate' initial txt = true -> substantial txt = true ->
  classify' (img1 :: before ++ after) = [image_item img1]
  /\ classify' (img1 :: before ++ txt :: after)
     = image_item img1
       :: (if leaf txt then [text_item txt] else []) ++ map image_item after.
Proof.
  intros Hall Hnd Hc Hs.
  apply Forall_cons in Hall as [[Htag1 Hurl1] Hall].
  assert (qualifying_image initial img1 = true) as Hq1.
  { unfold qualifying_image. simpl seenImages.
    by rewrite (bool_decide_eq_true_2 _ Htag1), Hurl1. }
  pose (st1 := push (image_item img1)
                 (incr_headerImageCount (add_seenImage (src img1) initial))).
  assert (body' initial img1 = st1) as Hst1 by (by rewrite (body_image _ _ Hq1)).
  assert (forall imgs, Forall (fun el => tagName el = IMG) imgs ->
            content (loop' st1 imgs) = [image_item img1]
            /\ foundFirstContent (loop' st1 imgs) = false
            /\ seenTexts (loop' st1 imgs) = ∅
            /\ (forall s, s ∈ seenImages (loop' st1 imgs) ->
                  s = src img1 \/ s ∈ map src imgs)) as Hrun.
  { intros imgs Himgs.
    destruct (loop_header_images imgs st1) as (H1 & H2 & H3 & H4); try done.
    repeat split; try done.
    intros s Hin. apply H4 in Hin as [Hin|Hin]; [|by right].
    left. simpl in Hin. apply elem_of_union in Hin as [Hin|Hin].
    - by apply elem_of_singleton in Hin.
    - by apply elem_of_empty in Hin. }
  assert (forall imgs,
            Forall (fun el => tagName el = IMG
                              /\ image_qualifies ∅ (src el) = true) imgs ->
            Forall (fun el => tagName el = IMG) imgs) as Htags.
  { intros imgs H. eapply Forall_impl; [exact H|]. by intros x [? _]. }
  split.
  - unfold classify. rewrite loop_cons, Hst1 by done.
    by apply Hrun, Htags.
  - apply Forall_app in Hall as [Hbefore Hafter].
    destruct (Hrun before (Htags _ Hbefore)) as (Hc2 & Hf2 & Ht2 & Hi2).
    assert (reachedFooter (loop' st1 before) = false) as Hr2
      by (by apply loop_reachedFooter).
    unfold classify. rewrite loop_cons, Hst1, loop_app, loop_cons by done.
    assert (candidate' (loop' st1 before) txt = true) as Hc'
      by (by rewrite <- Hc; apply candidate_same_seenTexts).
    rewrite (body_substantial _ _ _ _ _ Hc' Hf2 Hs).
    assert (forall st, reachedFooter st = false ->
              foundFirstContent st = true ->
              seenImages st = seenImages (loop' st1 before) ->
              content (loop' st after) = content st ++ map image_item after)
      as Hafter'.
    { intros st Hr Hf Hseen. apply loop_content_images; try done.
      - simpl in Hnd. apply NoDup_cons in Hnd as [_ Hnd].
        rewrite map_app in Hnd. by apply NoDup_app in Hnd as (_ & _ & ?).
      - intros s Hs' Hin. rewrite Hseen in Hin.
        simpl in Hnd. apply NoDup_cons in Hnd as [Hn1 Hnd].
        rewrite map_app in Hn1, Hnd.
        apply NoDup_app in Hnd as (_ & Hdisj & _).
        apply Hi2 in Hin as [->|Hin].
        + apply Hn1, elem_of_app. by right.
        + by apply (Hdisj s). }
    destruct (leaf txt) eqn:Hl.
    + rewrite (emit_text_leaf _ _ Hl), Hafter'; try done.
      simpl. by rewrite Hc2.
    + rewrite (emit_text_container _ _ Hl), Hafter'; try done.
      simpl. by rewrite Hc2.
Qed.

End ImageProperties.

Lemma pre_content_image_cap_witness :
  classify the_name the_handle the_title ([pic_1] ++ [pic_2; pic_3])
  = [image_item pic_1]
  /\ classify the_name the_handle the_title ([pic_1] ++ long_1 :: [pic_2; pic_3])
     = image_item pic_1
       :: (if leaf long_1 then [text_item long_1] else [])
          ++ map image_item [pic_2; pic_3].
Proof.
  apply (pre_content_image_cap the_name the_handle the_title
           pic_1 long_1 [] [pic_2; pic_3]).
  - repeat constructor.
  - apply (bool_decide_unpack _). vm_compute. exact I.
  - reflexivity.
  - reflexivity.
Defined.

(** C5, as stated, fails on both sides. A wrapping [div] with a long text
    starts the content without being emitted: no text has been accepted,
    and the second and third images are kept. A seventh short node is
    emitted without starting the content: a text has been accepted, and
    the qualifying image after it is dropped. *)
Lemma image_cap_counterexample :
  forallb (qualifying_image initial) [pic_1; pic_2; pic_3] = true
  /\ classify the_name the_handle the_title
       [pic_1; article_wrapper; pic_2; pic_3]
     = [image_item pic_1; image_item pic_2; image_item pic_3]
  /\ classify the_name the_handle the_title
       (pic_1 :: six_shorts ++ [seventh_short; pic_2])
     = [image_item pic_1; text_item seventh_short].
Proof. repeat split; vm_compute; reflexivity. Qed.

(** *** The seen set of images *)

Section DedupProperties.

Variables (authorName authorHandle title : list N).

Local Abbreviation body' := (body authorName authorHandle title).
Local Abbreviation loop' := (loop authorName authorHandle title).
Local Abbreviation classify' := (classify authorName authorHandle title).

Lemma qualifying_not_seen (st : LoopState) (el : Element) :
  qualifying_image st el = true -> src el ∉ seenImages st.
Proof.
  unfold qualifying_image. rewrite image_qualifies_seen.
  intros [_ [_ H]%andb_prop]%andb_prop.
  by apply negb_true_iff, bool_decide_eq_false in H.
Qed.

Lemma body_seenImages_mono (st : LoopState) (el : Element) (s : list N) :
  s ∈ seenImages st -> s ∈ seenImages (body' st el).
Proof.
  intros Hs.
  destruct (body_image_effect authorName authorHandle title st el)
    as [(_ & -> & _)|(_ & -> & _)]; [|done].
  apply elem_of_union. by right.
Qed.

(** A URL of the seen set is not pushed again. *)
Lemma body_no_reemit (st : LoopState) (el : Element) (s : list N) :
  s ∈ seenImages st ->
  s ∈ image_urls (content (body' st el)) -> s ∈ image_urls (content st).
Proof.
  intros Hs.
  destruct (body_image_effect authorName authorHandle title st el)
    as [(Hq & _ & [-> | ->])|(_ & _ & ->)]; try done.
  intros [Hin|Hin]%elem_of_app; [done|].
  apply list_elem_of_singleton in Hin as ->.
  by apply qualifying_not_seen in Hq.
Qed.

Lemma loop_no_reemit (els : list Element) (st : LoopState) (s : list N) :
  reachedFooter st = false -> s ∈ seenImages st ->
  s ∈ image_urls (content (loop' st els)) -> s ∈ image_urls (content st).
Proof.
  revert st; induction els as [|el els IH]; intros st Hr Hs; [done|].
  rewrite (loop_cons _ _ _ _ _ _ Hr). intros Hin.
  apply (body_no_reemit st el s Hs). apply IH; try done.
  - by rewrite body_reachedFooter.
  - by apply body_seenImages_mono.
Qed.

Lemma body_image_inv (st : LoopState) (el : Element) :
  image_inv st -> image_inv (body' st el).
Proof.
  intros [Hsub Hnd]. unfold image_inv.
  destruct (body_image_effect authorName authorHandle title st el)
    as [(Hq & -> & [-> | ->])|(_ & -> & ->)]; try done.
  - split; [|done]. intros s Hs. apply elem_of_union. right. by apply Hsub.
  - apply qualifying_not_seen in Hq. split.
    + intros s [Hs|Hs]%elem_of_app; apply elem_of_union.
      * right. by apply Hsub.
      * left. apply list_elem_of_singleton in Hs as ->.
        by apply elem_of_singleton.
    + apply NoDup_app. repeat split; [done| |apply NoDup_singleton].
      intros s Hs ->%list_elem_of_singleton. by apply Hq, Hsub.
Qed.

Lemma loop_image_inv (els : list Element) (st : LoopState) :
  reachedFooter st = false -> image_inv st -> image_inv (loop' st els).
Proof.
  revert st; induction els as [|el els IH]; intros st Hr Hinv; [done|].
  rewrite (loop_cons _ _ _ _ _ _ Hr). apply IH.
  - by rewrite body_reachedFooter.
  - by apply body_image_inv.
Qed.

Lemma classify_NoDup (els : list Element) :
  NoDup (image_urls (classify' els)).
Proof.
  apply (loop_image_inv els initial); [done|].
  split; [|constructor]. intros s Hs. by apply elem_of_nil in Hs.
Qed.

End DedupProperties.

Lemma removelast_sublist {A} (l : list A) : removelast l `sublist_of` l.
Proof.
  induction l as [|x [|y l] IH]; simpl in *.
  - constructor.
  - apply sublist_cons. constructor.
  - by apply sublist_skip.
Qed.

Lemma trailing_drop_sublist (c : list ContentItem) :
  trailing_drop c `sublist_of` c.
Proof.
  unfold trailing_drop. destruct (1 <? length c); [|done].
  apply removelast_sublist.
Qed.

Lemma filter_from_sublist (found : bool) (c : list ContentItem) :
  filter_from found c `sublist_of` c.
Proof.
  revert found; induction c as [|item c IH]; intros found; [constructor|].
  simpl. destruct (filter_callback found item) as [[] found'].
  - apply sublist_skip, IH.
  - apply sublist_cons, IH.
Qed.

(** The content of the article is drawn, in order, from what the pass
    collected. *)
Lemma evaluate_content_sublist (d : Document) :
  match container d with
  | Some els =>
      Article.content (evaluate d)
        `sublist_of` classify (name (extractAuthor (userLinks d)))
                       (handle (extractAuthor (userLinks d)))
                       (extractTitle (titleProbes d)) els
  | None => Article.content (evaluate d) = []
  end.
Proof.
  unfold evaluate. simpl. destruct (container d) as [els|]; [|done].
  etrans; [apply filter_from_sublist|apply trailing_drop_sublist].
Qed.

(** C10. Dropped images still enter the seen set: an image that qualifies
    has its URL in the seen set after its iteration, emitted or not; when
    it was not emitted, no later element of the page emits that URL,
    whatever follows; and no URL occurs in two image items of the
    collected sequence, nor of the content of the article. *)
Theorem dropped_images_poison_dedup (authorName authorHandle title : list N)
    (pre post : list Element) (el : Element) :
  qualifying_image (loop authorName authorHandle title initial pre) el = true ->
  src el ∈ seenImages
      (body authorName authorHandle title
         (loop authorName authorHandle title initial pre) el)
  /\ (content (body authorName authorHandle title
                 (loop authorName authorHandle title initial pre) el)
      = content (loop authorName authorHandle title initial pre) ->
      src el ∉ image_urls
        (classify authorName authorHandle title (pre ++ el :: post)))
  /\ NoDup (image_urls
              (classify authorName authorHandle title (pre ++ el :: post)))
  /\ (forall d : Document, NoDup (image_urls (Article.content (evaluate d)))).
Proof.
  intros Hq.
  set (st := loop authorName authorHandle title initial pre) in *.
  assert (reachedFooter st = false) as Hr by (by apply loop_reachedFooter).
  assert (src el ∈ seenImages (body authorName authorHandle title st el))
    as Hseen.
  { destruct (body_image_effect authorName authorHandle title st el)
      as [(_ & -> & _)|(Hq' & _)]; [|congruence].
    apply elem_of_union. left. by apply elem_of_singleton. }
  repeat split.
  - exact Hseen.
  - intros Hdrop Hin. unfold classify in Hin.
    rewrite loop_app, loop_cons in Hin by done. fold st in Hin.
    apply loop_no_reemit in Hin; [|by rewrite body_reachedFooter|done].
    rewrite Hdrop in Hin.
    apply (qualifying_not_seen st el Hq).
    destruct (loop_image_inv authorName authorHandle title pre initial)
      as [Hsub _]; [done| |by apply Hsub].
    split; [|constructor]. intros s Hs. by apply elem_of_nil in Hs.
  - apply classify_NoDup.
  - intros d. pose proof (evaluate_content_sublist d) as Hsub.
    destruct (container d) as [els|].
    + eapply sublist_NoDup; [apply classify_NoDup|].
      apply image_urls_sublist, Hsub.
    + rewrite Hsub. constructor.
Qed.

Lemma dropped_images_poison_dedup_witness :
  src pic_2 ∉ image_urls
    (classify the_name the_handle the_title
       ([pic_1] ++ pic_2 :: [long_1; pic_2; last_line])).
Proof.
  apply (dropped_images_poison_dedup the_name the_handle the_title
           [pic_1] [long_1; pic_2; last_line] pic_2);
    reflexivity.
Defined.

(** ** The footer *)

(** For every page the pass ends with the footer flag still unset: the
    test of line 502 comes after the tests of lines 498-499, which skip
    every text that starts with "More from" and every text equal to the
    author name. *)
Lemma footer_never_reached (authorName authorHandle title : list N)
    (els : list Element) :
  reachedFooter (loop authorName authorHandle title initial els) = false.
Proof. by apply loop_reachedFooter. Qed.

(** C1 on a page with a footer line between two paragraphs: the line is
    skipped, the pass goes on, and the paragraph after it is in the
    content of the article; so is the image after a repeated author
    name. A halt at the footer line would have left the first paragraph
    alone. *)
Theorem footer_halt_missed :
  startsWith (u16 "More from") (textContent more_from) = true
  /\ Article.authorName (evaluate author_again_page) = textContent author_again
  /\ Article.content (evaluate more_from_page)
     = [text_item long_1; text_item long_2]
  /\ Article.content (evaluate author_again_page)
     = [text_item long_1; image_item pic_1; text_item long_2].
Proof. repeat split; vm_compute; reflexivity. Qed.

(** ** The author *)

(** C6 on a page that links two accounts before the author's name: the
    handle is the text of the second link, not of the first; the name is
    found at the third link, where the scan stops. *)
Theorem handle_overwritten :
  first_at_link mention_links = Some (u16 "@first_handle")
  /\ handle (extractAuthor mention_links) = u16 "@second_handle"
  /\ name (extractAuthor mention_links) = the_name.
Proof. repeat split; vm_compute; reflexivity. Qed.

(** ** The end-to-end scenario *)

(** On the page of the scenario the pass collects the long paragraph and
    the image; the trailing drop removes the image, and the article has
    the title, the name, the handle and the one paragraph. *)
Example scenario :
  classify the_name the_handle the_title
    (default [] (container scenario_page))
  = [text_item long_1; image_item pic_1]
  /\ evaluate scenario_page
     = {| Article.title := the_title;
          Article.authorName := the_name;
          Article.authorHandle := the_handle;
          Article.authorAvatar := [];
          Article.content := [text_item long_1];
          Article.date := [] |}.
Proof. split; vm_compute; reflexivity. Qed.

(** * Further properties *)

(** ** What the pass keeps *)

Section Provenance.

Variables (authorName authorHandle title : list N).

Local Abbreviation body' := (body authorName authorHandle title).
Local Abbreviation loop' := (loop authorName authorHandle title).
Local Abbreviation classify' := (classify authorName authorHandle title).
Local Abbreviation candidate' := (candidate authorName authorHandle title).
Local Abbreviation accepted' := (accepted authorName authorHandle title).

Lemma skipped_initial (st : LoopState) (t : list N) :
  skipped authorName authorHandle title st t = false ->
  skipped authorName authorHandle title initial t = false
  /\ t ∉ seenTexts st.
Proof.
  unfold skipped. simpl seenTexts. intros H.
  apply orb_false_elim in H as [H Hauth].
  apply orb_false_elim in H as [H Hpat].
  apply orb_false_elim in H as [Hshort Hseen].
  rewrite Hshort, Hpat, Hauth. split.
  - by rewrite !orb_false_r.
  - by apply bool_decide_eq_false in Hseen.
Qed.

(** One iteration either leaves the collected items and the seen texts
    as they are, or pushes the item of its element: a text node that
    passes the tests, whose text joins the seen texts, or a qualifying
    image. *)
Lemma body_effect (st : LoopState) (el : Element) :
  (content (body' st el) = content st
   /\ seenTexts (body' st el) = seenTexts st)
  \/ (content (body' st el) = content st ++ [item_of el]
      /\ accepted' el = true
      /\ ((tagName el <> IMG
           /\ (textContent el ∉ seenTexts st)
           /\ seenTexts (body' st el) = {[ textContent el ]} ∪ seenTexts st)
          \/ (tagName el = IMG
              /\ seenTexts (body' st el) = seenTexts st))).
Proof.
  unfold item_of, accepted.
  destruct (bool_decide (tagName el = IMG)) eqn:Htag.
  - apply bool_decide_eq_true in Htag.
    destruct (qualifying_image st el) eqn:Hq.
    + rewrite (body_image _ _ _ _ _ Hq).
      assert (image_qualifies ∅ (src el) = true) as Hurl.
      { unfold qualifying_image in Hq. rewrite image_qualifies_seen in Hq.
        by apply andb_prop in Hq as [_ [? _]%andb_prop]. }
      destruct (foundFirstContent st); [|destruct (N.eqb _ 1)]; simpl.
      * right. repeat split; try done. by right.
      * right. repeat split; try done. by right.
      * by left.
    + rewrite (body_image_rejected _ _ _ _ _ Htag Hq). by left.
  - pose proof Htag as Hne. apply bool_decide_eq_false in Hne.
    destruct (skipped authorName authorHandle title st (textContent el))
      eqn:Hs.
    + left. unfold body, text_branch. by rewrite Htag, Hs.
    + assert (candidate' st el = true) as Hc
        by (unfold candidate; by rewrite Htag, Hs).
      destruct (skipped_initial _ _ Hs) as [Hs0 Hfresh].
      rewrite (body_candidate _ _ _ _ _ Hc).
      destruct (lead_in st el) as [st1 [|]] eqn:Hl; simpl.
      * left. unfold lead_in in Hl.
        repeat (match type of Hl with
                | context [if ?b then _ else _] => destruct b
                end; try done); by inversion Hl.
      * assert (content st1 = content st /\ seenTexts st1 = seenTexts st)
          as [Hc1 Ht1].
        { unfold lead_in in Hl.
          repeat (match type of Hl with
                  | context [if ?b then _ else _] => destruct b
                  end; try done); by inversion Hl. }
        destruct (leaf el) eqn:Hleaf.
        -- right. rewrite (emit_text_leaf _ _ Hleaf). simpl.
           rewrite Hc1, Ht1. repeat split; try done.
           ++ unfold candidate. by rewrite Htag, Hs0.
           ++ by left.
        -- left. by rewrite (emit_text_container _ _ Hleaf).
Qed.

(** From any state the loop appends the items of a subsequence of its
    elements, each accepted, with texts that are new and distinct. *)
Lemma loop_kept (els : list Element) (st : LoopState) :
  reachedFooter st = false ->
  exists kept : list Element,
    kept `sublist_of` els
    /\ content (loop' st els) = content st ++ map item_of kept
    /\ Forall (fun el => accepted' el = true) kept
    /\ NoDup (texts_of kept)
    /\ (forall t, t ∈ texts_of kept -> t ∉ seenTexts st).
Proof.
  revert st; induction els as [|el els IH]; intros st Hr.
  - exists []. simpl. rewrite app_nil_r. repeat split; try constructor.
    intros t Ht. by apply elem_of_nil in Ht.
  - rewrite (loop_cons _ _ _ _ _ _ Hr).
    destruct (IH (body' st el)) as (kept & Hsub & Hc & Hacc & Hnd & Hfresh).
    { by rewrite body_reachedFooter. }
    destruct (body_effect st el)
      as [[Hc0 Ht0]|(Hc0 & Hacc0 & [(Htag & Hnew & Ht0)|(Htag & Ht0)])].
    + exists kept. rewrite Hc, Hc0. repeat split; try done.
      * by apply sublist_cons.
      * intros t Ht. rewrite <- Ht0. by apply Hfresh.
    + exists (el :: kept). rewrite Hc, Hc0, <- app_assoc.
      assert (texts_of (el :: kept) = textContent el :: texts_of kept) as Ht.
      { unfold texts_of. simpl. by rewrite (bool_decide_eq_false_2 _ Htag). }
      rewrite Ht. repeat split; try done.
      * by apply sublist_skip.
      * by constructor.
      * constructor; [|done]. intros Hin. apply (Hfresh _ Hin).
        rewrite Ht0. apply elem_of_union. left. by apply elem_of_singleton.
      * intros t [->|Hin]%elem_of_cons; [done|].
        intros Hseen. apply (Hfresh _ Hin). rewrite Ht0.
        apply elem_of_union. by right.
    + exists (el :: kept). rewrite Hc, Hc0, <- app_assoc.
      assert (texts_of (el :: kept) = texts_of kept) as Ht.
      { unfold texts_of. simpl. by rewrite (bool_decide_eq_true_2 _ Htag). }
      rewrite Ht. repeat split; try done.
      * by apply sublist_skip.
      * by constructor.
      * intros t Hin. rewrite <- Ht0. by apply Hfresh.
Qed.

End Provenance.

Lemma sublist_map_inv {A B} (f : A -> B) (l : list B) (k : list A) :
  l `sublist_of` map f k -> exists k', k' `sublist_of` k /\ l = map f k'.
Proof.
  revert l; induction k as [|x k IH]; intros l Hl; simpl in Hl.
  - apply sublist_nil_r in Hl as ->. exists []. by split.
  - inversion Hl as [|y l1 l2 Hsub|y l1 l2 Hsub]; subst.
    + destruct (IH _ Hsub) as (k' & Hk' & ->).
      exists (x :: k'). split; [by apply sublist_skip|done].
    + destruct (IH _ Hsub) as (k' & Hk' & ->).
      exists k'. split; [by apply sublist_cons|done].
Qed.

Lemma texts_of_sublist (k1 k2 : list Element) :
  k1 `sublist_of` k2 -> texts_of k1 `sublist_of` texts_of k2.
Proof.
  unfold texts_of. induction 1 as [|x l1 l2 _ IH|x l1 l2 _ IH]; simpl.
  - constructor.
  - destruct (bool_decide _); [done|]. by constructor.
  - destruct (bool_decide _); [done|]. by constructor.
Qed.

Lemma Forall_sublist_of {A} (P : A -> Prop) (l k : list A) :
  l `sublist_of` k -> Forall P k -> Forall P l.
Proof.
  intros Hsub Hk. apply Forall_forall. intros x Hx.
  rewrite Forall_forall in Hk. apply Hk. by eapply elem_of_sublist.
Qed.

(** The content of the article comes from a subsequence of the elements
    of the container, each accepted by the pass, with distinct texts. *)
Lemma evaluate_kept (d : Document) (els : list Element) :
  container d = Some els ->
  exists kept : list Element,
    kept `sublist_of` els
    /\ Article.content (evaluate d) = map item_of kept
    /\ Forall (fun el => accepted (Article.authorName (evaluate d))
                           (Article.authorHandle (evaluate d))
                           (Article.title (evaluate d)) el = true) kept
    /\ NoDup (texts_of kept).
Proof.
  intros Hcont. pose proof (evaluate_content_sublist d) as Hsub.
  rewrite Hcont in Hsub. simpl.
  destruct (loop_kept (name (extractAuthor (userLinks d)))
              (handle (extractAuthor (userLinks d)))
              (extractTitle (titleProbes d)) els initial eq_refl)
    as (kept0 & Hsub0 & Hc0 & Hacc0 & Hnd0 & _).
  simpl in Hc0. unfold classify in Hsub. rewrite Hc0 in Hsub.
  apply sublist_map_inv in Hsub as (kept & Hk & Heq).
  exists kept. repeat split.
  - by etrans.
  - exact Heq.
  - by eapply Forall_sublist_of.
  - eapply sublist_NoDup; [exact Hnd0|]. by apply texts_of_sublist.
Qed.

(** X1. Order: the content of the article is, in document order, the
    items of a subsequence of the elements of the container; and no two
    text elements of that subsequence have the same text. *)
Theorem article_content_in_document_order (d : Document)
    (els : list Element) :
  container d = Some els ->
  exists kept : list Element,
    kept `sublist_of` els
    /\ Article.content (evaluate d) = map item_of kept
    /\ NoDup (texts_of kept).
Proof.
  intros Hcont.
  destruct (evaluate_kept d els Hcont) as (kept & H1 & H2 & _ & H4).
  by exists kept.
Qed.

Lemma article_content_in_document_order_witness :
  exists kept : list Element,
    kept `sublist_of` default [] (container scenario_page)
    /\ Article.content (evaluate scenario_page) = map item_of kept
    /\ NoDup (texts_of kept).
Proof.
  apply (article_content_in_document_order scenario_page). reflexivity.
Defined.

(** X2. What the article never holds: every text item of the content is
    the item of a text element whose trimmed text has at least 3 code
    units, matches none of the skip patterns, differs from the author
    name, the handle and the title of the article, and which is not a
    [div] with block descendants; every image item is the [src] of an
    image that passes the URL tests. *)
Theorem article_content_accepted (d : Document) (els : list Element)
    (item : ContentItem) :
  container d = Some els ->
  item ∈ Article.content (evaluate d) ->
  exists el : Element,
    el ∈ els /\ item = item_of el
    /\ (type item = text ->
        tagName el <> IMG
        /\ 3 <= length (textContent el)
        /\ existsb (fun p => p (textContent el)) skipPatterns = false
        /\ textContent el <> Article.authorName (evaluate d)
        /\ textContent el <> Article.authorHandle (evaluate d)
        /\ textContent el <> Article.title (evaluate d)
        /\ leaf el = true)
    /\ (type item = image ->
        tagName el = IMG /\ image_qualifies ∅ (src el) = true).
Proof.
  intros Hcont Hin.
  destruct (evaluate_kept d els Hcont) as (kept & Hsub & Heq & Hacc & _).
  rewrite Heq in Hin. apply list_elem_of_fmap in Hin as (el & -> & Hel).
  exists el. split; [by eapply elem_of_sublist|]. split; [done|].
  rewrite Forall_forall in Hacc. specialize (Hacc el Hel).
  unfold accepted, item_of in *.
  destruct (bool_decide (tagName el = IMG)) eqn:Htag.
  - apply bool_decide_eq_true in Htag. split; [|done].
    unfold image_item. simpl. discriminate.
  - apply bool_decide_eq_false in Htag. split.
    + intros _. apply andb_prop in Hacc as [Hc Hleaf].
      unfold candidate in Hc. apply andb_prop in Hc as [_ Hs].
      apply negb_true_iff in Hs. unfold skipped in Hs.
      apply orb_false_elim in Hs as [Hs Hauth].
      apply orb_false_elim in Hs as [Hs Hpat].
      apply orb_false_elim in Hs as [Hshort _].
      apply orb_false_elim in Hshort as [_ Hlen].
      apply orb_false_elim in Hauth as [Hauth Htitle].
      apply orb_false_elim in Hauth as [Hname Hhandle].
      apply Nat.ltb_ge in Hlen.
      unfold str_eqb in *.
      apply bool_decide_eq_false in Hname, Hhandle, Htitle.
      repeat split; done.
    + unfold text_item. by destruct (heading_like el).
Qed.

Lemma article_content_accepted_witness :
  exists el : Element,
    el ∈ default [] (container scenario_page)
    /\ text_item long_1 = item_of el
    /\ (type (text_item long_1) = text ->
        tagName el <> IMG
        /\ 3 <= length (textContent el)
        /\ existsb (fun p => p (textContent el)) skipPatterns = false
        /\ textContent el <> Article.authorName (evaluate scenario_page)
        /\ textContent el <> Article.authorHandle (evaluate scenario_page)
        /\ textContent el <> Article.title (evaluate scenario_page)
        /\ leaf el = true)
    /\ (type (text_item long_1) = image ->
        tagName el = IMG /\ image_qualifies ∅ (src el) = true).
Proof.
  apply (article_content_accepted scenario_page
           (default [] (container scenario_page)) (text_item long_1)).
  - reflexivity.
  - apply (bool_decide_unpack _). vm_compute. exact I.
Defined.

(** ** More on the noise filter *)

Lemma filter_callback_before_flag (item : ContentItem) :
  real_paragraph item = false ->
  filter_callback false item = (kept_before_flag item, false).
Proof.
  unfold real_paragraph, filter_callback, kept_before_flag.
  destruct (type item); [|done]. cbv zeta.
  destruct (is_cta (rawText (value item))); [done|].
  change (negb false) with true. rewrite !andb_true_l. cbv iota.
  intros ->.
  destruct (Nat.ltb_spec (length (rawText (value item))) 10) as [H|H].
  - by apply Nat.leb_gt in H as ->.
  - by apply Nat.leb_le in H as ->.
Qed.

Lemma filter_callback_real (item : ContentItem) :
  real_paragraph item = true -> filter_callback false item = (true, true).
Proof.
  unfold real_paragraph, filter_callback.
  destruct (type item); [|done]. cbv zeta.
  destruct (is_cta (rawText (value item))); [done|].
  change (negb false) with true. rewrite !andb_true_l. cbv iota.
  by intros ->.
Qed.

Lemma filter_from_before_flag (c : list ContentItem) :
  Forall (fun item => real_paragraph item = false) c ->
  filter_from false c = List.filter kept_before_flag c
  /\ flag_after false c = false.
Proof.
  induction 1 as [|item c Hitem _ [IH1 IH2]]; [done|].
  simpl. rewrite (filter_callback_before_flag _ Hitem). simpl.
  rewrite IH1. by destruct (kept_before_flag item).
Qed.

(** X3. The filter in closed form. Up to the first text item of at least
    50 code units that is no call to action, it keeps the images and the
    texts of at least 10 code units that are no call to action; it keeps
    that item; after it, it removes the calls to action and nothing
    else. *)
Theorem filter_closed_form (before after : list ContentItem)
    (p : ContentItem) :
  Forall (fun item => real_paragraph item = false) before ->
  real_paragraph p = true ->
  filterContent (before ++ p :: after)
  = List.filter kept_before_flag before
    ++ p :: List.filter (fun it => negb (removed_as_cta it)) after.
Proof.
  intros Hbefore Hp. unfold filterContent.
  destruct (filter_from_before_flag before Hbefore) as [Hpre Hflag].
  rewrite filter_from_app, Hpre, Hflag. simpl.
  by rewrite (filter_callback_real _ Hp), filter_from_true.
Qed.

Lemma filter_closed_form_witness :
  filterContent ([para_5; para_20] ++ para_60 :: [para_8; subscribe_item])
  = List.filter kept_before_flag [para_5; para_20]
    ++ para_60
       :: List.filter (fun it => negb (removed_as_cta it))
            [para_8; subscribe_item].
Proof.
  apply (filter_closed_form [para_5; para_20] [para_8; subscribe_item] para_60).
  - repeat constructor.
  - reflexivity.
Defined.

(** X4. An article without a real paragraph: when no text item has 50
    code units (calls to action apart), the flag is never set, and every
    text of fewer than 10 code units is dropped wherever it stands. *)
Theorem filter_without_real_paragraph (c : list ContentItem) :
  Forall (fun item => real_paragraph item = false) c ->
  filterContent c = List.filter kept_before_flag c.
Proof. intros Hc. by apply filter_from_before_flag. Qed.

Lemma filter_without_real_paragraph_witness :
  filterContent [para_20; para_5; para_8; para_20]
  = List.filter kept_before_flag [para_20; para_5; para_8; para_20].
Proof.
  apply (filter_without_real_paragraph [para_20; para_5; para_8; para_20]).
  repeat constructor.
Defined.

(** X5. The filter never removes an image: the image items of its output
    are those of its input, in the same order. *)
Theorem filter_keeps_images (c : list ContentItem) :
  List.filter is_image (filterContent c) = List.filter is_image c.
Proof.
  unfold filterContent. generalize false.
  induction c as [|item c IH]; intros found; [done|].
  simpl. destruct (filter_callback found item) as [keep found'] eqn:E.
  destruct (is_image item) eqn:Him.
  - assert (keep = true) as ->.
    { unfold filter_callback, is_image in *.
      apply bool_decide_eq_true in Him. rewrite Him in E. by inversion E. }
    simpl. rewrite Him. f_equal. apply IH.
  - destruct keep; simpl; rewrite ?Him; apply IH.
Qed.

(** X6. The filter is idempotent: a second run removes nothing more. *)
Theorem filter_idempotent (c : list ContentItem) :
  filterContent (filterContent c) = filterContent c.
Proof.
  unfold filterContent. generalize false.
  induction c as [|item c IH]; intros found; [done|].
  simpl. destruct (filter_callback found item) as [[|] found'] eqn:E.
  - simpl. rewrite E. f_equal. apply IH.
  - assert (found' = found) as ->; [|apply IH].
    unfold filter_callback in E.
    repeat (match type of E with
            | context [match ?b with _ => _ end] => destruct b
            end; try done); by inversion E.
Qed.

(** ** More on the author *)

Lemma handle_link_truthy (l : Link) :
  handle_link l = true -> truthy (linkText l) = true.
Proof.
  unfold handle_link. intros [_ H]%andb_prop.
  by destruct (linkText l).
Qed.

Lemma author_loop_name (links : list Link) (a : Author) :
  name (author_loop a links)
  = if truthy (name a) then name a
    else default [] (linkText <$> List.find name_candidate links).
Proof.
  revert a; induction links as [|l links IH]; intros a.
  - simpl. by destruct (name a).
  - cbn [author_loop List.find]. unfold author_step, name_candidate.
    destruct (is_user_link l) eqn:Hu,
             (startsWith (u16 "@") (linkText l)) eqn:Hat,
             (truthy (linkText l)) eqn:Ht,
             (truthy (name a)) eqn:Hn,
             (truthy (handle a)) eqn:Hh,
             (length (linkText l) <? 50) eqn:Hl;
      cbn [negb andb name handle]; rewrite ?Hn, ?Ht, ?Hh;
      cbn [negb andb name handle]; rewrite ?IH;
      cbn [negb andb name handle]; rewrite ?Hn, ?Ht; try done.
Qed.

(** X7. The display name is the text of the first user link whose text
    is not empty, does not start with [@] and has fewer than 50 code
    units; it is empty when there is none. *)
Theorem name_is_first_candidate (links : list Link) :
  name (extractAuthor links)
  = default [] (linkText <$> List.find name_candidate links).
Proof. unfold extractAuthor. by rewrite author_loop_name. Qed.

Lemma author_step_handle (a : Author) (l : Link) :
  handle (fst (author_step a l)) = handle a
  \/ (handle_link l = true /\ handle (fst (author_step a l)) = linkText l).
Proof.
  unfold author_step, handle_link.
  destruct (is_user_link l); [|by left].
  destruct (startsWith (u16 "@") (linkText l)); cbn [fst andb].
  - by right.
  - left. by destruct (truthy (linkText l) && _ && _).
Qed.

(** The handle is the one the scan started with, or the text of a user
    link that starts with [@]. *)
Lemma author_loop_handle (links : list Link) (a : Author) :
  handle (author_loop a links) = handle a
  \/ exists l, l ∈ links /\ handle_link l = true
               /\ handle (author_loop a links) = linkText l.
Proof.
  revert a; induction links as [|l links IH]; intros a; [by left|].
  cbn [author_loop]. pose proof (author_step_handle a l) as Hstep.
  destruct (author_step a l) as [a' stop]. cbn [fst] in Hstep.
  destruct stop.
  - destruct Hstep as [->|[Hl ->]]; [by left|].
    right. exists l. split; [by left|done].
  - destruct (IH a') as [->|(l0 & Hin & Hl0 & ->)].
    + destruct Hstep as [->|[Hl ->]]; [by left|].
      right. exists l. split; [by left|done].
    + right. exists l0. split; [by right|done].
Qed.

(** A handle that is set stays set: it is only ever replaced by a text
    that starts with [@]. *)
Lemma author_loop_handle_stays (links : list Link) (a : Author) :
  truthy (handle a) = true -> truthy (handle (author_loop a links)) = true.
Proof.
  intros Ha. destruct (author_loop_handle links a) as [->|(l & _ & Hl & ->)].
  - done.
  - by apply handle_link_truthy.
Qed.

Lemma author_step_stop (a : Author) (l : Link) :
  snd (author_step a l) = true ->
  truthy (name (fst (author_step a l))) = true
  /\ truthy (handle (fst (author_step a l))) = true.
Proof.
  unfold author_step. destruct (is_user_link l); [|done].
  cbn [fst snd]. by intros [? ?]%andb_prop.
Qed.

Lemma author_loop_handle_found (links : list Link) (a : Author) :
  Exists (fun l => handle_link l = true) links ->
  truthy (handle (author_loop a links)) = true.
Proof.
  intros Hex. revert a.
  induction links as [|l links IH]; intros a; [by inversion Hex|].
  destruct (handle_link l) eqn:Hl.
  - pose proof (handle_link_truthy _ Hl) as Ht.
    unfold handle_link in Hl. apply andb_prop in Hl as [Hu Hat].
    cbn [author_loop]. unfold author_step. rewrite Hu, Hat.
    cbn [name handle]. rewrite Ht, andb_true_r.
    destruct (truthy (name a)); [done|].
    by apply author_loop_handle_stays.
  - apply Exists_cons in Hex as [Hex|Hex]; [congruence|].
    cbn [author_loop]. pose proof (author_step_stop a l) as Hstop.
    destruct (author_step a l) as [a' [|]]; cbn [fst snd] in Hstop.
    + by apply Hstop.
    + by apply IH.
Qed.

(** X8. The handle is empty exactly when no user link has a text that
    starts with [@]; otherwise it is the text of such a link. *)
Theorem handle_is_an_at_link (links : list Link) :
  (Forall (fun l => handle_link l = false) links ->
   handle (extractAuthor links) = [])
  /\ (Exists (fun l => handle_link l = true) links ->
      exists l, l ∈ links /\ handle_link l = true
                /\ handle (extractAuthor links) = linkText l).
Proof.
  unfold extractAuthor. split.
  - intros Hall.
    destruct (author_loop_handle links {| name := []; handle := [] |})
      as [->|(l & Hin & Hl & _)]; [done|].
    rewrite Forall_forall in Hall. specialize (Hall l Hin). congruence.
  - intros Hex.
    destruct (author_loop_handle links {| name := []; handle := [] |})
      as [Heq|H]; [|done].
    apply (author_loop_handle_found links {| name := []; handle := [] |})
      in Hex. by rewrite Heq in Hex.
Qed.

Lemma handle_is_an_at_link_witness :
  handle (extractAuthor [ {| href := u16 "https://x.com/home";
                             linkText := u16 "Home" |} ]) = []
  /\ exists l, l ∈ byline_links /\ handle_link l = true
               /\ handle (extractAuthor byline_links) = linkText l.
Proof.
  split.
  - apply (proj1 (handle_is_an_at_link _)). repeat constructor.
  - apply (proj2 (handle_is_an_at_link byline_links)).
    apply Exists_cons_tl, Exists_cons_tl, Exists_cons_hd. reflexivity.
Defined.

(** While no user link starts with [@] the scan goes on, and only the
    name can be set. *)
Lemma author_loop_before_handle (before rest : list Link) (a : Author) :
  handle a = [] ->
  Forall (fun l => handle_link l = false) before ->
  author_loop a (before ++ rest)
  = author_loop
      {| name := if truthy (name a) then name a
                 else default []
                        (linkText <$> List.find name_candidate before);
         handle := [] |} rest.
Proof.
  revert a; induction before as [|l before IH]; intros a Ha Hall.
  - simpl. destruct a as [n h]. simpl in *. subst. by destruct n.
  - apply Forall_cons in Hall as [Hl Hall].
    cbn [app author_loop List.find]. unfold author_step, name_candidate.
    unfold handle_link in Hl.
    destruct (is_user_link l) eqn:Hu; cbn [andb] in *.
    + rewrite Hl. cbn [negb andb].
      destruct (truthy (linkText l)) eqn:Ht,
               (truthy (name a)) eqn:Hn,
               (length (linkText l) <? 50) eqn:Hlen;
        cbn [negb andb name handle]; rewrite ?Ha, ?Hn, ?Ht, ?andb_false_r;
        cbn [truthy falsy negb andb];
        rewrite IH by done; cbn [name handle]; rewrite ?Hn, ?Ht; done.
    + rewrite IH by done. done.
Qed.

(** X9. On a page where a name link comes before the first link that
    starts with [@], the scan stops at that link: the handle is its
    text, the name is the text of the first name link, and the links
    after it are not read. *)
Theorem byline_order (before after : list Link) (l c : Link) :
  Forall (fun l => handle_link l = false) before ->
  List.find name_candidate before = Some c ->
  handle_link l = true ->
  extractAuthor (before ++ l :: after)
  = {| name := linkText c; handle := linkText l |}.
Proof.
  intros Hbefore Hc Hl. unfold extractAuthor.
  rewrite author_loop_before_handle by done. rewrite Hc.
  change (author_loop {| name := linkText c; handle := [] |} (l :: after)
          = {| name := linkText c; handle := linkText l |}).
  assert (truthy (linkText c) = true) as Htc.
  { apply find_some in Hc as [_ Hc]. unfold name_candidate in Hc.
    by apply andb_prop in Hc as [[_ ?]%andb_prop _]. }
  pose proof (handle_link_truthy _ Hl) as Htl.
  unfold handle_link in Hl. apply andb_prop in Hl as [Hu Hat].
  cbn [author_loop]. unfold author_step. rewrite Hu, Hat.
  cbn [name handle]. by rewrite Htc, Htl.
Qed.

Lemma byline_order_witness :
  extractAuthor
    ([ {| href := u16 "https://x.com/home"; linkText := [] |};
       {| href := u16 "https://x.com/real_author"; linkText := the_name |} ]
     ++ {| href := u16 "https://x.com/real_author"; linkText := the_handle |}
        :: [ {| href := u16 "https://x.com/someone_else";
                linkText := u16 "@someone_else" |} ])
  = {| name := linkText {| href := u16 "https://x.com/real_author";
                           linkText := the_name |};
       handle := linkText {| href := u16 "https://x.com/real_author";
                             linkText := the_handle |} |}.
Proof.
  apply byline_order.
  - repeat constructor.
  - reflexivity.
  - reflexivity.
Defined.

(** ** Escaping *)

Lemma replace_char_app (c : N) (rep s t : list N) :
  replace_char c rep (s ++ t) = replace_char c rep s ++ replace_char c rep t.
Proof. unfold replace_char. apply flat_map_app. Qed.

Lemma escapeHtml_app (s t : list N) :
  escapeHtml (s ++ t) = escapeHtml s ++ escapeHtml t.
Proof. unfold escapeHtml. by rewrite !replace_char_app. Qed.

Lemma escapeHtml_unit (c : N) : escapeHtml [c] = escape_unit c.
Proof.
  unfold escape_unit.
  destruct (N.eqb_spec c 38) as [->|H38]; [reflexivity|].
  destruct (N.eqb_spec c 60) as [->|H60]; [reflexivity|].
  destruct (N.eqb_spec c 62) as [->|H62]; [reflexivity|].
  destruct (N.eqb_spec c 34) as [->|H34]; [reflexivity|].
  destruct (N.eqb_spec c 39) as [->|H39]; [reflexivity|].
  destruct (N.eqb_spec c 10) as [->|H10]; [reflexivity|].
  unfold escapeHtml, replace_char. cbn [flat_map app].
  apply N.eqb_neq in H38, H60, H62, H34, H39, H10.
  rewrite H38. cbn [flat_map app]. rewrite H60. cbn [flat_map app].
  rewrite H62. cbn [flat_map app]. rewrite H34. cbn [flat_map app].
  rewrite H39. cbn [flat_map app]. by rewrite H10.
Qed.

Lemma escapeHtml_flat_map (t : list N) :
  escapeHtml t = flat_map escape_unit t.
Proof.
  induction t as [|c t IH]; [done|].
  change (c :: t) with ([c] ++ t).
  by rewrite escapeHtml_app, escapeHtml_unit, IH.
Qed.

(** X10. Escaping is one pass: although the source applies six
    replacements in a row, no replacement touches what an earlier one
    wrote; each code unit of the input is replaced once, by its entity,
    by [<br>] for a line feed, or by itself; so the escaped form of a
    text is the escaped forms of its parts, one after the other. *)
Theorem escapeHtml_one_pass (s t : list N) :
  escapeHtml t = flat_map escape_unit t
  /\ escapeHtml (s ++ t) = escapeHtml s ++ escapeHtml t.
Proof. split; [apply escapeHtml_flat_map|apply escapeHtml_app]. Qed.

Ltac escape_cases c :=
  unfold escape_unit;
  destruct (N.eqb_spec c 38) as [->|?];
    [|destruct (N.eqb_spec c 60) as [->|?];
      [|destruct (N.eqb_spec c 62) as [->|?];
        [|destruct (N.eqb_spec c 34) as [->|?];
          [|destruct (N.eqb_spec c 39) as [->|?];
            [|destruct (N.eqb_spec c 10) as [->|?]]]]]].

(** X11. What escaping never lets through: the escaped text has no
    double quote and no apostrophe, and an angle bracket only where the
    input had a line feed (as part of [<br>]). *)
Theorem escapeHtml_safe (t : list N) (x : N) :
  In x (escapeHtml t) ->
  x <> 34%N /\ x <> 39%N /\ (x = 60%N \/ x = 62%N -> In 10%N t).
Proof.
  rewrite escapeHtml_flat_map. intros Hx.
  apply in_flat_map in Hx as (c & Hc & Hx). revert Hx.
  escape_cases c; simpl; intros Hx;
    repeat (destruct Hx as [<-|Hx]; [repeat split; try lia; try done|]);
    try done.
  all: intros [?|?]; lia.
Qed.

Lemma escapeHtml_safe_witness :
  60%N <> 34%N /\ 60%N <> 39%N
  /\ (60%N = 60%N \/ 60%N = 62%N -> In 10%N (u16 "a" ++ [10%N] ++ u16 "b")).
Proof.
  apply (escapeHtml_safe (u16 "a" ++ [10%N] ++ u16 "b") 60%N).
  vm_compute. right. left. reflexivity.
Defined.

(** X12. Escaping loses nothing: two texts with the same escaped form
    are the same text. *)
Theorem escapeHtml_injective (s t : list N) :
  escapeHtml s = escapeHtml t -> s = t.
Proof.
  rewrite !escapeHtml_flat_map. revert t.
  induction s as [|a s IH]; intros [|b t]; simpl.
  - done.
  - escape_cases b; simpl; discriminate.
  - escape_cases a; simpl; discriminate.
  - escape_cases a; escape_cases b; simpl; intros H;
      try discriminate H;
      try (injection H as H; f_equal; by apply IH);
      try (injection H as -> H; f_equal; by apply IH);
      try (injection H as Hc; lia);
      try (injection H as Hc _; lia).
Qed.

Lemma escapeHtml_injective_witness : u16 "a<b" = u16 "a<b".
Proof. apply (escapeHtml_injective (u16 "a<b") (u16 "a<b")). reflexivity. Defined.

(** ** Rendering *)

(** X13. The heading marker from the pass to the page: the item of a
    heading-like element is rendered as an [h2] around its escaped text,
    and the filter measures that text; the item of another element is
    rendered as a [p] around its escaped text, unless the text itself
    starts with the marker: then it is rendered as an [h2], without its
    first three code units. *)
Theorem heading_marker_round_trip (el : Element) :
  (heading_like el = true ->
   render_item (text_item el)
   = h2_open ++ escapeHtml (textContent el) ++ u16 "</h2>"
   /\ rawText (value (text_item el)) = textContent el)
  /\ (heading_like el = false ->
      startsWith (u16 "## ") (textContent el) = false ->
      render_item (text_item el)
      = p_open ++ escapeHtml (textContent el) ++ u16 "</p>"
      /\ rawText (value (text_item el)) = textContent el)
  /\ (heading_like el = false ->
      startsWith (u16 "## ") (textContent el) = true ->
      render_item (text_item el)
      = h2_open ++ escapeHtml (drop 3 (textContent el)) ++ u16 "</h2>").
Proof.
  unfold text_item, render_item, rawText, slice_from.
  split; [|split].
  - by intros ->.
  - intros -> Hm. cbn [type value]. by rewrite Hm.
  - intros -> Hm. cbn [type value]. by rewrite Hm.
Qed.

Lemma heading_marker_round_trip_witness :
  render_item (text_item long_1)
  = p_open ++ escapeHtml (textContent long_1) ++ u16 "</p>"
  /\ rawText (value (text_item long_1)) = textContent long_1.
Proof.
  apply (proj1 (proj2 (heading_marker_round_trip long_1)));
    reflexivity.
Defined.

(** ** URLs *)

Lemma startsWith_app (p r : list N) : startsWith p (p ++ r) = true.
Proof. induction p as [|a p IH]; [done|]. simpl. by rewrite N.eqb_refl. Qed.

Lemma startsWith_inv (p t : list N) :
  startsWith p t = true -> t = p ++ drop (length p) t.
Proof.
  revert t; induction p as [|a p IH]; intros [|b t]; simpl; try done.
  intros [Hab Hp]%andb_prop. apply N.eqb_eq in Hab as ->.
  f_equal. by apply IH.
Qed.

Lemma includes_app (p pre r : list N) : includes p (pre ++ p ++ r) = true.
Proof.
  induction pre as [|c pre IH].
  - simpl. destruct (p ++ r) eqn:E; simpl; rewrite <- ?E;
      by rewrite startsWith_app.
  - simpl. rewrite IH. apply orb_true_r.
Qed.

Lemma takeWhile_split (f : N -> bool) (t : list N) :
  exists rest, t = takeWhile f t ++ rest
               /\ match rest with [] => True | c :: _ => f c = false end.
Proof.
  induction t as [|c t (rest & IH & Hrest)].
  - by exists [].
  - simpl. destruct (f c) eqn:E.
    + exists rest. split; [simpl; by f_equal|done].
    + by exists (c :: t).
Qed.

Lemma takeWhile_forallb (f : N -> bool) (t : list N) :
  forallb f (takeWhile f t) = true.
Proof.
  induction t as [|c t IH]; [done|]. simpl.
  destruct (f c) eqn:E; [|done]. simpl. by rewrite E.
Qed.

Lemma takeWhile_truthy (f : N -> bool) (t : list N) :
  truthy (takeWhile f t) = true <-> exists c t', t = c :: t' /\ f c = true.
Proof.
  split.
  - destruct t as [|c t]; [done|]. simpl. destruct (f c) eqn:E; [|done].
    intros _. by exists c, t.
  - intros (c & t' & -> & Hc). simpl. by rewrite Hc.
Qed.

(** The code matches at the head of [url] exactly when [url] is [key]
    followed by a digit. *)
Lemma match_here (key url : list N) :
  truthy (if startsWith key url
          then takeWhile isDigit (drop (length key) url) else []) = true
  <-> exists d post, url = key ++ d :: post /\ isDigit d = true.
Proof.
  split.
  - destruct (startsWith key url) eqn:E; [|done].
    intros (d & post & Hd & Hdig)%takeWhile_truthy.
    exists d, post. split; [|done].
    rewrite (startsWith_inv _ _ E) at 1. by rewrite Hd.
  - intros (d & post & -> & Hd). rewrite startsWith_app.
    rewrite drop_app_length. apply takeWhile_truthy. by exists d, post.
Qed.

(** X14. The id taken from a URL ([extractTweetId] with the key
    [status/], [extractArticleId] with the key [article/]) is a run of
    digits, not empty, that stands in the URL right after the key and is
    not followed by a digit; and no place further left has the key
    followed by a digit. *)
Theorem extracted_id_shape (key url id : list N) :
  match_digits_after key url = Some id ->
  id <> [] /\ forallb isDigit id = true
  /\ exists pre post,
       url = pre ++ key ++ id ++ post
       /\ match post with [] => True | c :: _ => isDigit c = false end
       /\ forall pre' d post',
            url = pre' ++ key ++ d :: post' -> isDigit d = true ->
            length pre <= length pre'.
Proof.
  revert id; induction url as [|c url IH]; intros id.
  - cbn [match_digits_after].
    destruct (truthy _) eqn:E; [|done]. intros [= <-].
    pose proof E as Htr.
    apply match_here in E as (d & post & Hurl & Hd).
    destruct key; discriminate.
  - cbn [match_digits_after].
    destruct (truthy _) eqn:E.
    + intros [= <-]. pose proof E as Hhere.
      destruct (startsWith key (c :: url)) eqn:Hs; [|done].
      split; [by destruct (takeWhile _ _)|].
      split; [apply takeWhile_forallb|].
      destruct (takeWhile_split isDigit (drop (length key) (c :: url)))
        as (post & Hsplit & Hpost).
      exists [], post. split; [|split; [done|]].
      * simpl. rewrite <- Hsplit. by apply startsWith_inv.
      * intros. simpl. lia.
    + intros Hid. destruct (IH id Hid) as (Hne & Hdig & pre & post & Hurl & Hpost & Hleft).
      split; [done|]. split; [done|].
      exists (c :: pre), post. split; [by rewrite Hurl|]. split; [done|].
      intros pre' d post' Hurl' Hd.
      destruct pre' as [|c' pre'].
      * assert (truthy (if startsWith key (c :: url)
                        then takeWhile isDigit (drop (length key) (c :: url))
                        else []) = true) as Habs.
        { apply match_here. by exists d, post'. }
        congruence.
      * simpl in Hurl'. injection Hurl' as -> Hurl'.
        simpl. specialize (Hleft pre' d post' Hurl' Hd). lia.
Qed.

Lemma extracted_id_shape_witness :
  u16 "1234567890" <> [] /\ forallb isDigit (u16 "1234567890") = true
  /\ exists pre post,
       tweet_url = pre ++ u16 "status/" ++ u16 "1234567890" ++ post
       /\ match post with [] => True | c :: _ => isDigit c = false end
       /\ forall pre' d post',
            tweet_url = pre' ++ u16 "status/" ++ d :: post' ->
            isDigit d = true -> length pre <= length pre'.
Proof.
  apply (extracted_id_shape (u16 "status/") tweet_url (u16 "1234567890")).
  reflexivity.
Defined.

Lemma match_digits_after_None (key url : list N) :
  match_digits_after key url = None
  <-> forall pre d post, url = pre ++ key ++ d :: post -> isDigit d = false.
Proof.
  induction url as [|c url IH]; cbn [match_digits_after].
  - destruct (truthy _) eqn:E.
    + apply match_here in E as (d & post & Hurl & Hd).
      destruct key; discriminate.
    + split; [|done]. intros _ pre d post Hurl.
      destruct pre, key; discriminate.
  - destruct (truthy _) eqn:E.
    + split; [done|]. intros Hall.
      apply match_here in E as (d & post & Hurl & Hd).
      specialize (Hall [] d post Hurl). congruence.
    + rewrite IH. split.
      * intros Hall pre d post Hurl. destruct pre as [|c' pre].
        -- destruct (isDigit d) eqn:Hd; [|done].
           assert (truthy (if startsWith key (c :: url)
                           then takeWhile isDigit
                                  (drop (length key) (c :: url))
                           else []) = true) as Habs.
           { apply match_here. by exists d, post. }
           congruence.
        -- simpl in Hurl. injection Hurl as -> Hurl. by eapply Hall.
      * intros Hall pre d post Hurl. apply (Hall (c :: pre) d post).
        by rewrite Hurl.
Qed.

(** X15. No id is found exactly when the URL has no place where the key
    is followed by a digit. *)
Theorem no_id_iff (key url : list N) :
  match_digits_after key url = None
  <-> forall pre d post, url = pre ++ key ++ d :: post -> isDigit d = false.
Proof. apply match_digits_after_None. Qed.

Lemma no_id_iff_witness : isDigit 120%N = false.
Proof.
  apply (proj1 (no_id_iff (u16 "status/") (u16 "https://x.com/u/status/x"))
           eq_refl (u16 "https://x.com/u/") 120%N [] eq_refl).
Defined.

(** X16. A URL that carries its path as it is: when the path is a tweet
    path for [isValidTwitterUrl], an id is found by [extractTweetId];
    when it is an article path, the URL is an article URL for
    [isArticleUrl] and an id is found by [extractArticleId]. *)
Theorem valid_path_has_id (pathname before after : list N) :
  (isTweetPath pathname = true ->
   extractTweetId (before ++ pathname ++ after) <> None)
  /\ (isArticlePath pathname = true ->
      isArticleUrl (before ++ pathname ++ after) = true
      /\ extractArticleId (before ++ pathname ++ after) <> None).
Proof.
  split.
  - unfold isTweetPath, extractTweetId.
    destruct pathname as [|c r]; [done|]. cbv zeta.
    destruct (takeWhile_split isWord r) as (rest & Hr & _). revert Hr.
    generalize (takeWhile isWord r). intros w ->.
    rewrite drop_app_length.
    intros [[[Hc _]%andb_prop Hs]%andb_prop Hd]%andb_prop.
    apply N.eqb_eq in Hc as ->.
    apply startsWith_inv in Hs.
    change (length (u16 "/status/")) with 8 in Hs.
    apply takeWhile_truthy in Hd as (d & post & Hpost & Hd).
    rewrite Hpost in Hs. rewrite Hs.
    rewrite match_digits_after_None. intros Hall.
    specialize (Hall (before ++ [47%N] ++ w ++ u16 "/") d (post ++ after)).
    rewrite Hall in Hd; [done|].
    rewrite <- !app_assoc. simpl. by rewrite <- !app_assoc.
  - unfold isArticlePath, isArticleUrl, extractArticleId.
    intros [Hs Hd]%andb_prop.
    apply startsWith_inv in Hs.
    change (length (u16 "/i/article/")) with 11 in Hs.
    apply takeWhile_truthy in Hd as (d & post & Hpost & Hd).
    rewrite Hs, Hpost. split.
    + rewrite <- app_assoc. apply includes_app.
    + rewrite match_digits_after_None. intros Hall.
      specialize (Hall (before ++ u16 "/i/") d (post ++ after)).
      rewrite Hall in Hd; [done|].
      simpl. rewrite <- !app_assoc. done.
Qed.

Lemma valid_path_has_id_witness :
  extractTweetId
    (u16 "https://x.com" ++ u16 "/some_user/status/1234567890" ++ u16 "?s=20")
  <> None
  /\ isArticleUrl (u16 "https://x.com" ++ u16 "/i/article/987654321" ++ [])
     = true.
Proof.
  split.
  - apply (proj1 (valid_path_has_id (u16 "/some_user/status/1234567890")
                    (u16 "https://x.com") (u16 "?s=20"))).
    reflexivity.
  - apply (proj2 (valid_path_has_id (u16 "/i/article/987654321")
                    (u16 "https://x.com") [])).
    reflexivity.
Defined.

(** ** The tweet path *)

Lemma startsWith_takeWhile (f : N -> bool) (t : list N) :
  startsWith (takeWhile f t) t = true.
Proof.
  induction t as [|c t IH]; [done|]. simpl.
  destruct (f c); [|done]. simpl. by rewrite N.eqb_refl.
Qed.

Lemma includes_prefix (p t : list N) :
  startsWith p t = true -> includes p t = true.
Proof. destruct t; simpl; by intros ->. Qed.

Lemma photo_step_grows (images : list (list N)) (p : Syndication.Photo) :
  exists extra, photo_step images p = images ++ extra.
Proof.
  unfold photo_step. destruct (_ && _).
  - by eexists.
  - exists []. by rewrite app_nil_r.
Qed.

Lemma photo_loop_grows (ps : list Syndication.Photo)
    (images : list (list N)) :
  exists extra, fold_left photo_step ps images = images ++ extra.
Proof.
  revert images; induction ps as [|p ps IH]; intros images.
  - exists []. by rewrite app_nil_r.
  - simpl. destruct (photo_step_grows images p) as [e1 ->].
    destruct (IH (images ++ e1)) as [e2 ->].
    exists (e1 ++ e2). by rewrite app_assoc.
Qed.

Lemma photo_step_represents (images : list (list N))
    (p : Syndication.Photo) (u : list N) :
  Syndication.url p = Some u -> u <> [] ->
  exists img, In img (photo_step images p)
              /\ includes (before_query u) img = true.
Proof.
  intros Hu Hne. unfold photo_step. rewrite Hu. cbn [default present].
  assert (truthy u = true) as -> by (by destruct u).
  cbn [andb]. destruct (existsb _ images) eqn:E; cbn [negb].
  - apply existsb_exists in E as (img & Hin & Himg). by exists img.
  - exists u. split; [apply in_or_app; right; by left|].
    apply includes_prefix, startsWith_takeWhile.
Qed.

Lemma photo_loop_represents (ps : list Syndication.Photo)
    (images : list (list N)) (p : Syndication.Photo) (u : list N) :
  In p ps -> Syndication.url p = Some u -> u <> [] ->
  exists img, In img (fold_left photo_step ps images)
              /\ includes (before_query u) img = true.
Proof.
  revert images; induction ps as [|q ps IH]; intros images; [done|].
  intros [->|Hin] Hu Hne; simpl.
  - destruct (photo_step_represents images p u Hu Hne) as (img & Hin & Himg).
    destruct (photo_loop_grows ps (photo_step images p)) as [extra ->].
    exists img. split; [apply in_or_app; by left|done].
  - by apply IH.
Qed.

(** X17. Every photo of the payload is represented: for each entry of
    [photos] with a URL, some image of the tweet contains that URL up to
    its query string. *)
Theorem photos_are_represented (data : Syndication.Payload)
    (ps : list Syndication.Photo) (p : Syndication.Photo) (u : list N) :
  Syndication.photos data = Some ps -> In p ps ->
  Syndication.url p = Some u -> u <> [] ->
  exists img, In img (Tweet.images (tweet_of_payload data))
              /\ includes (before_query u) img = true.
Proof.
  intros Hps Hin Hu Hne. unfold tweet_of_payload. cbn [Tweet.images].
  rewrite Hps. by eapply photo_loop_represents.
Qed.

Lemma photos_are_represented_witness :
  exists img, In img (Tweet.images (tweet_of_payload photo_payload))
              /\ includes
                   (before_query
                      (u16 "https://pbs.twimg.com/media/abc.jpg?name=small"))
                   img = true.
Proof.
  apply (photos_are_represented photo_payload
           [ {| Syndication.url :=
                  Some (u16 "https://pbs.twimg.com/media/abc.jpg?name=small") |} ]
           {| Syndication.url :=
                Some (u16 "https://pbs.twimg.com/media/abc.jpg?name=small") |}).
  - reflexivity.
  - left. reflexivity.
  - reflexivity.
  - discriminate.
Defined.

(** X18. No photo twice: when every entry of [photos] that has a URL is
    already contained, up to its query string, in an image taken from
    [mediaDetails], the images of the tweet are exactly those taken from
    [mediaDetails]. *)
Theorem photos_already_in_media (data : Syndication.Payload)
    (ms : list Syndication.Media) (ps : list Syndication.Photo) :
  Syndication.mediaDetails data = Some ms ->
  Syndication.photos data = Some ps ->
  Forall (fun p =>
            present (Syndication.url p) = true ->
            existsb (fun img =>
                       includes
                         (before_query (default [] (Syndication.url p))) img)
              (fold_left media_step ms []) = true) ps ->
  Tweet.images (tweet_of_payload data) = fold_left media_step ms [].
Proof.
  intros Hms Hps Hall. unfold tweet_of_payload. cbn [Tweet.images].
  rewrite Hms, Hps. clear Hms Hps.
  generalize dependent (fold_left media_step ms []).
  intros images Hall. induction Hall as [|p ps Hp _ IH]; [done|].
  cbn [fold_left]. assert (photo_step images p = images) as ->; [|exact IH].
  unfold photo_step. destruct (present (Syndication.url p)); [|done].
  by rewrite Hp.
Qed.

Lemma photos_already_in_media_witness :
  Tweet.images (tweet_of_payload photo_payload)
  = fold_left media_step
      (default [] (Syndication.mediaDetails photo_payload)) [].
Proof.
  apply (photos_already_in_media photo_payload
           (default [] (Syndication.mediaDetails photo_payload))
           (default [] (Syndication.photos photo_payload)));
    [reflexivity | reflexivity |].
  repeat constructor.
Defined.

(** X19. The author of a tweet is never blank: the name is not empty
    ("Unknown" when the payload has none), the handle is [@] followed by
    at least one code unit, and the avatar, when there is one, is not
    empty. *)
Theorem tweet_author_never_blank (data : Syndication.Payload) :
  Tweet.authorName (tweet_of_payload data) <> []
  /\ (exists h, h <> []
                /\ Tweet.authorHandle (tweet_of_payload data) = 64%N :: h)
  /\ Tweet.authorAvatar (tweet_of_payload data) <> Some [].
Proof.
  unfold tweet_of_payload. cbn [Tweet.authorName Tweet.authorHandle
                                 Tweet.authorAvatar].
  assert (forall x fb, fb <> [] -> or_else x fb <> []) as Hor.
  { intros [[|c s]|] fb Hfb; simpl; done. }
  repeat split.
  - by apply Hor.
  - eexists. split; [|reflexivity]. by apply Hor.
  - destruct (_ ≫= _) as [s|]; [|done].
    destruct (replace_first _ _ s); simpl; done.
Qed.

(** ** The handler *)

Lemma match_digits_after_digits (key url id : list N) :
  match_digits_after key url = Some id ->
  id <> [] /\ forallb isDigit id = true.
Proof.
  induction url as [|c url IH]; cbn [match_digits_after].
  - destruct (truthy _) eqn:E; [|done]. intros [= <-].
    destruct (startsWith key []); [|done].
    split; [by destruct (takeWhile _ _)|apply takeWhile_forallb].
  - destruct (truthy _) eqn:E; [|done]. intros [= <-].
    destruct (startsWith key (c :: url)); [|done].
    split; [by destruct (takeWhile _ _)|apply takeWhile_forallb].
Qed.

Ltac pick_client_error :=
  left; split; [reflexivity|];
  unfold client_errors; cbn [map In];
  repeat (first [left; reflexivity | right]).

Lemma respond_with_pdf_cases (w : Collaborators) (html fileId : list N) :
  (exists pdf, respond_with_pdf w html fileId
               = Pdf pdf (tpl "attachment; filename=~" ++ fileId
                          ++ tpl ".pdf~"))
  \/ (exists e, respond_with_pdf w html fileId = conversion_error e).
Proof.
  unfold respond_with_pdf. destruct (generatePDF w html) as [e|pdf].
  - right. by exists e.
  - left. by exists pdf.
Qed.

(** X20. The answers of the handler. A PDF is answered only with a file
    name [article-] or [tweet-] followed by a non-empty run of digits
    and [.pdf]; every other answer is a JSON error, either with status
    400 and one of seven fixed messages, or with status 500 and the
    message of what was thrown after "Failed to convert to PDF: ". *)
Theorem handler_answers (w : Collaborators) (request : RequestBody) :
  match POST w request with
  | Pdf _ contentDisposition =>
      exists kind id,
        (kind = u16 "article-" \/ kind = u16 "tweet-")
        /\ id <> [] /\ forallb isDigit id = true
        /\ contentDisposition
           = tpl "attachment; filename=~" ++ (kind ++ id) ++ tpl ".pdf~"
  | Json error status =>
      (status = 400%Z /\ In error client_errors)
      \/ (status = 500%Z /\ exists e, Json error status = conversion_error e)
  end.
Proof.
  assert (forall e, match conversion_error e with
                    | Pdf _ _ => False
                    | Json error status =>
                        (status = 400%Z /\ In error client_errors)
                        \/ (status = 500%Z
                            /\ exists e', Json error status = conversion_error e')
                    end) as H500.
  { intros e. unfold conversion_error. right. split; [done|]. by exists e. }
  assert (forall html kind id,
            (kind = u16 "article-" \/ kind = u16 "tweet-") ->
            id <> [] /\ forallb isDigit id = true ->
            match respond_with_pdf w html (kind ++ id) with
            | Pdf _ contentDisposition =>
                exists kind id,
                  (kind = u16 "article-" \/ kind = u16 "tweet-")
                  /\ id <> [] /\ forallb isDigit id = true
                  /\ contentDisposition
                     = tpl "attachment; filename=~" ++ (kind ++ id)
                       ++ tpl ".pdf~"
            | Json error status =>
                (status = 400%Z /\ In error client_errors)
                \/ (status = 500%Z
                    /\ exists e, Json error status = conversion_error e)
            end) as Hpdf.
  { intros html kind id Hkind [Hne Hdig].
    destruct (respond_with_pdf_cases w html (kind ++ id))
      as [[pdf ->]|[e ->]]; [|apply H500].
    by exists kind, id. }
  unfold POST. destruct request as [e|url authToken csrfToken]; [apply H500|].
  destruct (present url); cbn [negb]; [|pick_client_error].
  destruct (isValidTwitterUrl _ _); cbn [negb]; [|pick_client_error].
  destruct (isArticleUrl _).
  - destruct (extractArticleId _) as [articleId|] eqn:Hid;
      [|pick_client_error].
    destruct (present authToken); cbn [negb]; [|pick_client_error].
    destruct (scrapeArticle _ _ _ _) as [e|articleData]; [apply H500|].
    destruct (post_article_cases articleData) as [(_ & _ & ->)|(_ & ->)].
    + pick_client_error.
    + apply Hpdf; [by left|].
      by apply match_digits_after_digits in Hid.
  - destruct (extractTweetId _) as [tweetId|] eqn:Hid; [|pick_client_error].
    destruct (fetchTweetData _ _) as [e|tweetData]; [apply H500|].
    destruct (_ && _); [pick_client_error|].
    apply Hpdf; [by right|].
    by apply match_digits_after_digits in Hid.
Qed.

(** X21. Articles without a token are refused before the browser is
    started: for an article URL and a request without [authToken] the
    answer has status 400, and it is the same whatever the browser, the
    syndication endpoint, the templates and the PDF engine would do. *)
Theorem article_without_token (w w' : Collaborators)
    (url authToken csrfToken : option (list N)) :
  parseURL w = parseURL w' ->
  present authToken = false ->
  isArticleUrl (default [] url) = true ->
  POST w (BodyObject url authToken csrfToken)
  = POST w' (BodyObject url authToken csrfToken)
  /\ exists error, POST w (BodyObject url authToken csrfToken)
                   = Json error 400.
Proof.
  intros Hparse Htoken Harticle. unfold POST. rewrite Hparse.
  destruct (present url); cbn [negb]; [|by eauto].
  destruct (isValidTwitterUrl _ _); cbn [negb]; [|by eauto].
  rewrite Harticle.
  destruct (extractArticleId _); [|by eauto].
  rewrite Htoken. cbn [negb]. by eauto.
Qed.

Lemma article_without_token_witness :
  POST offline (BodyObject (Some article_url) None None)
  = POST offline (BodyObject (Some article_url) None None)
  /\ exists error, POST offline (BodyObject (Some article_url) None None)
                   = Json error 400.
Proof.
  apply (article_without_token offline offline (Some article_url) None None);
    reflexivity.
Defined.

(** X22. A tweet the endpoint does not deliver: when the URL is accepted
    as a tweet URL and the syndication endpoint answers with a status
    that is not ok, the handler answers with status 500, not 400, and
    the message names the status of the endpoint. *)
Theorem tweet_fetch_refused (w : Collaborators) (url tweetId : list N)
    (authToken csrfToken : option (list N)) (response : HttpResponse) :
  url <> [] ->
  isValidTwitterUrl (parseURL w) url = true ->
  isArticleUrl url = false ->
  extractTweetId url = Some tweetId ->
  fetch w (syndicationUrl tweetId) = inr response ->
  ok response = false ->
  POST w (BodyObject (Some url) authToken csrfToken)
  = Json (u16 "Failed to convert to PDF: Failed to fetch tweet: "
          ++ decimal (status response)) 500.
Proof.
  intros Hne Hvalid Harticle Hid Hfetch Hok. unfold POST.
  cbn [present]. cbv zeta. change (default [] (Some url)) with url.
  assert (truthy url = true) as -> by (by destruct url).
  cbn [negb]. rewrite Hvalid, Harticle, Hid. cbn [negb].
  unfold fetchTweetData. rewrite Hfetch, Hok. cbn [negb].
  unfold conversion_error. reflexivity.
Qed.

Lemma tweet_fetch_refused_witness :
  POST offline (BodyObject (Some tweet_url) None None)
  = Json (u16 "Failed to convert to PDF: Failed to fetch tweet: "
          ++ decimal 404) 500.
Proof.
  apply (tweet_fetch_refused offline tweet_url (u16 "1234567890") None None
           {| ok := false; status := 404; json := inl NotAnError |});
    try reflexivity.
  discriminate.
Defined.

(** ** The text of a tweet *)

Example cleanTweetText_examples :
  map (fun t => cleanTweetText (u16 t))
    ["Look at this https://t.co/AbC123 "; "  no link here  ";
     "a http://t.co/x1, b https://t.co/y2.";
     "https://t.co/ is not a link";
     "httphttps://t.co/xs://t.co/y"]%string
  = map u16
      ["Look at this"; "no link here"; "a , b .";
       "https://t.co/ is not a link"; "http://t.co/y"]%string.
Proof. reflexivity. Qed.

Lemma strip_links_skip (k : nat) (t : list N) :
  strip_links k t = strip_links 0 (drop k t).
Proof.
  revert t; induction k as [|k IH]; intros [|c t]; try done.
  simpl. apply IH.
Qed.

Lemma link_length_needs_http (t : list N) :
  startsWith (u16 "http") t = false -> link_length t = None.
Proof. unfold link_length. by intros ->. Qed.

Lemma includes_cons_false (p t : list N) (c : N) :
  includes p (c :: t) = false ->
  startsWith p (c :: t) = false /\ includes p t = false.
Proof. simpl. by intros [? ?]%orb_false_elim. Qed.

(** X23. A text without [http] has no link to remove: it is only
    trimmed. *)
Theorem cleanTweetText_without_http (t : list N) :
  includes (u16 "http") t = false -> cleanTweetText t = trim t.
Proof.
  intros H. unfold cleanTweetText. f_equal.
  induction t as [|c t IH]; [done|].
  apply includes_cons_false in H as [Hs Hi].
  cbn [strip_links]. rewrite (link_length_needs_http _ Hs).
  f_equal. by apply IH.
Qed.

Lemma cleanTweetText_without_http_witness :
  cleanTweetText (u16 "  no link here  ") = trim (u16 "  no link here  ").
Proof.
  apply (cleanTweetText_without_http (u16 "  no link here  ")). reflexivity.
Defined.

Lemma startsWith_http_take (c : N) (s x : list N) :
  startsWith (u16 "http") (c :: s ++ x)
  = startsWith (u16 "http") (c :: s ++ take 3 x).
Proof.
  destruct s as [|? [|? [|? ?]]], x as [|? [|? [|? ?]]]; reflexivity.
Qed.

(** Where no [http] starts, nothing is removed. *)
Lemma strip_links_prefix (s x : list N) :
  includes (u16 "http") (s ++ take 3 x) = false ->
  strip_links 0 (s ++ x) = s ++ strip_links 0 x.
Proof.
  induction s as [|c s IH]; [done|]. intros H.
  change ((c :: s) ++ take 3 x) with (c :: s ++ take 3 x) in H.
  apply includes_cons_false in H as [Hs Hi].
  rewrite <- startsWith_http_take in Hs.
  change ((c :: s) ++ x) with (c :: s ++ x).
  cbn [strip_links]. rewrite (link_length_needs_http _ Hs).
  cbn [app]. f_equal. by apply IH.
Qed.

Lemma takeWhile_run (f : N -> bool) (w rest : list N) :
  forallb f w = true ->
  match rest with [] => True | c :: _ => f c = false end ->
  takeWhile f (w ++ rest) = w.
Proof.
  intros Hw Hrest. induction w as [|c w IH]; simpl in *.
  - destruct rest as [|c rest]; [done|]. simpl. by rewrite Hrest.
  - apply andb_prop in Hw as [-> Hw]. f_equal. by apply IH.
Qed.

Lemma strip_links_link (secure : bool) (w rest : list N) :
  w <> [] -> forallb isWord w = true ->
  match rest with [] => True | c :: _ => isWord c = false end ->
  strip_links 0
    ((if secure then u16 "https://t.co/" else u16 "http://t.co/")
     ++ w ++ rest)
  = strip_links 0 rest.
Proof.
  intros Hne Hw Hrest.
  pose proof (takeWhile_run isWord w rest Hw Hrest) as Hrun.
  assert (truthy w = true) as Htr by (by destruct w).
  destruct secure.
  - change (u16 "https://t.co/" ++ w ++ rest)
      with (104%N :: u16 "ttps://t.co/" ++ w ++ rest).
    cbn [strip_links].
    assert (link_length (104%N :: u16 "ttps://t.co/" ++ w ++ rest)
            = Some (13 + length w)) as ->.
    { unfold link_length.
      change (startsWith (u16 "http") (104%N :: u16 "ttps://t.co/" ++ w ++ rest))
        with true.
      change (drop 4 (104%N :: u16 "ttps://t.co/" ++ w ++ rest))
        with (115%N :: u16 "://t.co/" ++ w ++ rest).
      cbv beta iota zeta.
      change (drop 1 (115%N :: u16 "://t.co/" ++ w ++ rest))
        with (u16 "://t.co/" ++ w ++ rest).
      rewrite startsWith_app.
      change (drop 8 (u16 "://t.co/" ++ w ++ rest)) with (w ++ rest).
      by rewrite Hrun, Htr. }
    rewrite strip_links_skip. f_equal.
    replace (13 + length w - 1) with (12 + length w) by lia.
    change (u16 "ttps://t.co/" ++ w ++ rest)
      with (u16 "ttps://t.co/" ++ (w ++ rest)).
    rewrite drop_app_add' by reflexivity. apply drop_app_length.
  - change (u16 "http://t.co/" ++ w ++ rest)
      with (104%N :: u16 "ttp://t.co/" ++ w ++ rest).
    cbn [strip_links].
    assert (link_length (104%N :: u16 "ttp://t.co/" ++ w ++ rest)
            = Some (12 + length w)) as ->.
    { unfold link_length.
      change (startsWith (u16 "http") (104%N :: u16 "ttp://t.co/" ++ w ++ rest))
        with true.
      change (drop 4 (104%N :: u16 "ttp://t.co/" ++ w ++ rest))
        with (58%N :: u16 "//t.co/" ++ w ++ rest).
      cbv beta iota zeta.
      change (drop 0 (58%N :: u16 "//t.co/" ++ w ++ rest))
        with (u16 "://t.co/" ++ w ++ rest).
      rewrite startsWith_app.
      change (drop 8 (u16 "://t.co/" ++ w ++ rest)) with (w ++ rest).
      by rewrite Hrun, Htr. }
    rewrite strip_links_skip. f_equal.
    replace (12 + length w - 1) with (11 + length w) by lia.
    change (u16 "ttp://t.co/" ++ w ++ rest)
      with (u16 "ttp://t.co/" ++ (w ++ rest)).
    rewrite drop_app_add' by reflexivity. apply drop_app_length.
Qed.

(** X24. A link is removed whole: where a text has a [t.co] link, with
    [http] or [https], whose run of word characters ends at the end of
    the text or before another character, and no [http] starts in the
    text before it, the cleaned text is the text before the link
    followed by the cleaned rest, trimmed. *)
Theorem link_removed (secure : bool) (s w rest : list N) :
  includes (u16 "http") (s ++ u16 "htt") = false ->
  w <> [] -> forallb isWord w = true ->
  match rest with [] => True | c :: _ => isWord c = false end ->
  cleanTweetText
    (s ++ (if secure then u16 "https://t.co/" else u16 "http://t.co/")
       ++ w ++ rest)
  = trim (s ++ strip_links 0 rest).
Proof.
  intros Hs Hne Hw Hrest. unfold cleanTweetText. f_equal.
  rewrite strip_links_prefix.
  - f_equal. by apply strip_links_link.
  - by destruct secure.
Qed.

Lemma link_removed_witness :
  cleanTweetText
    (u16 "Look at this "
     ++ (if true then u16 "https://t.co/" else u16 "http://t.co/")
     ++ u16 "AbC123" ++ u16 " ")
  = trim (u16 "Look at this " ++ strip_links 0 (u16 " ")).
Proof.
  apply (link_removed true (u16 "Look at this ") (u16 "AbC123") (u16 " "));
    try reflexivity.
  discriminate.
Defined.

(** ** The avatar *)

Lemma replace_first_absent (pat rep t : list N) :
  includes pat t = false -> replace_first pat rep t = t.
Proof.
  induction t as [|c t IH]; simpl.
  - by intros [-> _]%orb_false_elim.
  - intros [-> Hi]%orb_false_elim. f_equal. by apply IH.
Qed.

Lemma startsWith_normal_take (c : N) (s x : list N) :
  startsWith (u16 "_normal") (c :: s ++ x)
  = startsWith (u16 "_normal") (c :: s ++ take 6 x).
Proof.
  destruct s as [|? [|? [|? [|? [|? [|? ?]]]]]],
           x as [|? [|? [|? [|? [|? [|? ?]]]]]]; reflexivity.
Qed.

Lemma replace_first_normal (pre post : list N) :
  includes (u16 "_normal") (pre ++ u16 "_norma") = false ->
  replace_first (u16 "_normal") (u16 "_400x400")
    (pre ++ u16 "_normal" ++ post)
  = pre ++ u16 "_400x400" ++ post.
Proof.
  induction pre as [|c pre IH]; [done|]. intros H.
  change ((c :: pre) ++ u16 "_norma") with (c :: pre ++ u16 "_norma") in H.
  apply includes_cons_false in H as [Hs Hi].
  change (u16 "_norma") with (take 6 (u16 "_normal" ++ post)) in Hs.
  rewrite <- startsWith_normal_take in Hs.
  change ((c :: pre) ++ u16 "_normal" ++ post)
    with (c :: pre ++ u16 "_normal" ++ post).
  cbn [replace_first]. rewrite Hs. cbn [app]. f_equal. by apply IH.
Qed.

(** X25. The avatar of the article: a [src] without [_normal] is kept as
    it is; in a [src] with [_normal] the first occurrence, and only that
    one, is replaced by [_400x400]. *)
Theorem avatar_upgraded (d : Document) :
  (forall s, avatarImg d = Some s ->
     includes (u16 "_normal") s = false ->
     Article.authorAvatar (evaluate d) = s)
  /\ (forall pre post,
        avatarImg d = Some (pre ++ u16 "_normal" ++ post) ->
        includes (u16 "_normal") (pre ++ u16 "_norma") = false ->
        Article.authorAvatar (evaluate d) = pre ++ u16 "_400x400" ++ post).
Proof.
  unfold evaluate. cbn [Article.authorAvatar]. split.
  - intros s -> Hs. by apply replace_first_absent.
  - intros pre post -> Hpre. by apply replace_first_normal.
Qed.

Lemma avatar_upgraded_witness :
  Article.authorAvatar (evaluate avatar_page)
  = u16 "https://pbs.twimg.com/profile_images/1/face"
    ++ u16 "_400x400" ++ u16 ".jpg".
Proof.
  apply (proj2 (avatar_upgraded avatar_page)
           (u16 "https://pbs.twimg.com/profile_images/1/face") (u16 ".jpg"));
    reflexivity.
Defined.

(** ** After the start of the content *)

Lemma body_foundFirstContent (authorName authorHandle title : list N)
    (st : LoopState) (el : Element) :
  foundFirstContent st = true ->
  foundFirstContent (body authorName authorHandle title st el) = true.
Proof.
  intros Hf. unfold body, image_branch, text_branch, lead_in, emit_text.
  rewrite Hf. cbn [negb].
  repeat (match goal with
          | |- context [if ?b then _ else _] => destruct b
          end; cbn [foundFirstContent add_seenImage push set_reachedFooter
                    add_seenText negb]; rewrite ?Hf; try done).
Qed.

(** X26. Once the content has started it stays started, whatever
    follows; from then on a text node that passes the skip tests and is
    a leaf is always pushed, however short, and a qualifying image is
    always pushed. *)
Theorem after_content_started (authorName authorHandle title : list N)
    (st : LoopState) (el : Element) (els : list Element) :
  reachedFooter st = false -> foundFirstContent st = true ->
  (candidate authorName authorHandle title st el = true ->
   leaf el = true ->
   body authorName authorHandle title st el
   = push (text_item el) (add_seenText (textContent el) st))
  /\ (qualifying_image st el = true ->
      body authorName authorHandle title st el
      = push (image_item el) (add_seenImage (src el) st))
  /\ foundFirstContent (loop authorName authorHandle title st els) = true.
Proof.
  intros Hr Hf. split; [|split].
  - intros Hc Hl. rewrite (body_candidate _ _ _ _ _ Hc).
    unfold lead_in. rewrite Hf. cbn [negb fst snd].
    by apply emit_text_leaf.
  - intros Hq. by rewrite (body_image _ _ _ _ _ Hq), Hf.
  - revert st Hr Hf. induction els as [|x els IH]; intros st Hr Hf; [done|].
    rewrite loop_cons by done. apply IH.
    + by rewrite body_reachedFooter.
    + by apply body_foundFirstContent.
Qed.

Lemma after_content_started_witness :
  foundFirstContent
    (loop the_name the_handle the_title
       (body the_name the_handle the_title initial long_1)
       [para_short_el; pic_1])
  = true.
Proof.
  apply (after_content_started the_name the_handle the_title
           (body the_name the_handle the_title initial long_1)
           last_line [para_short_el; pic_1]);
    reflexivity.
Defined.

(** ** The callback on any page *)

Lemma author_scan_returns (l : list Anchor) (a a' : Author) :
  author_scan a l = inr a' -> a' = author_loop a (string_links l).
Proof.
  revert a; induction l as [|x l IH]; intros a; cbn [author_scan].
  - by intros [= <-].
  - unfold string_links. cbn [omap list_omap].
    destruct (anchorHref x) as [h|]; [|done].
    fold (string_links l). cbn [author_loop].
    destruct (author_step a _) as [a1 [|]].
    + by intros [= <-].
    + apply IH.
Qed.

Lemma author_scan_strings (links : list Link) (a : Author) :
  author_scan a
    (map (fun l => {| anchorHref := Str (href l);
                      anchorText := linkText l |}) links)
  = inr (author_loop a links).
Proof.
  revert a; induction links as [|[h t] links IH]; intros a; [done|].
  cbn [map author_scan author_loop anchorHref anchorText href linkText].
  destruct (author_step a _) as [a1 [|]]; [done|apply IH].
Qed.

(** When the callback returns, it returns what [evaluate] gives on the
    part of the page with string members. *)
Lemma callback_returns (p : Page) (articleData : Article.ArticleData) :
  callback p = inr articleData -> articleData = evaluate (document_of p).
Proof.
  unfold callback, evaluate, document_of.
  cbn [avatarImg userLinks titleProbes container timeDatetime].
  destruct (pageAvatar p) as [[s|]|]; [|done|].
  - destruct (author_scan _ _) as [e|a] eqn:E; [done|].
    apply author_scan_returns in E.
    unfold extractAuthor. rewrite <- E. by intros [= <-].
  - destruct (author_scan _ _) as [e|a] eqn:E; [done|].
    apply author_scan_returns in E.
    unfold extractAuthor. rewrite <- E. by intros [= <-].
Qed.

(** On a page of HTML elements the callback returns. *)
Lemma callback_page_of (d : Document) :
  callback (page_of d) = inr (evaluate d).
Proof.
  unfold callback, page_of, evaluate.
  cbn [pageAvatar pageAnchors pageTitleProbes pageContainer pageDatetime].
  unfold extractAuthor. rewrite author_scan_strings.
  by destruct (avatarImg d).
Qed.

(** While the name and the handle have not both been found the scan goes
    on. *)
Lemma author_scan_app (links : list Link) (rest : list Anchor) (a : Author) :
  truthy (name (author_loop a links))
  && truthy (handle (author_loop a links)) = false ->
  author_scan a
    (map (fun l => {| anchorHref := Str (href l);
                      anchorText := linkText l |}) links ++ rest)
  = author_scan (author_loop a links) rest.
Proof.
  revert a; induction links as [|[h t] links IH]; intros a; [done|].
  cbn [map app author_scan author_loop anchorHref anchorText href linkText].
  pose proof (author_step_stop a {| href := h; linkText := t |}) as Hstop.
  destruct (author_step a _) as [a1 [|]]; cbn [fst snd] in Hstop.
  - destruct (Hstop eq_refl) as [-> ->]. done.
  - apply IH.
Qed.

(** Every page on which a link whose [href] is no string comes before
    the name and the handle have both been found makes the callback
    throw. *)
Lemma callback_throws_before_stop (p : Page) (links : list Link)
    (x : Anchor) (rest : list Anchor) :
  pageAvatar p <> Some NotStr ->
  pageAnchors p
  = map (fun l => {| anchorHref := Str (href l);
                     anchorText := linkText l |}) links ++ x :: rest ->
  anchorHref x = NotStr ->
  truthy (name (extractAuthor links))
  && truthy (handle (extractAuthor links)) = false ->
  callback p = inl HrefIsNotAString.
Proof.
  intros Hav Hanchors Hx Hgo. unfold callback. rewrite Hanchors.
  unfold extractAuthor in Hgo. rewrite (author_scan_app _ _ _ Hgo).
  cbn [author_scan]. rewrite Hx.
  by destruct (pageAvatar p) as [[s|]|].
Qed.

(** C9 on a page whose first link is an SVG anchor: the callback does
    not return; it throws at [href.match], and the handler answers with
    status 500, neither with an article nor with the error of the empty
    extraction. Without that link the same page gives its article. For
    the pages on which the callback does return, the rest of the claim
    holds: the handler answers with the one JSON error of status 400
    exactly when the title and the content are both empty, and goes on to
    render otherwise. *)
Theorem callback_throws_on_svg_anchor :
  callback svg_anchor_page = inl HrefIsNotAString
  /\ (forall describe,
        after_callback describe (callback svg_anchor_page)
        = inl (Json (u16 "Failed to convert to PDF: "
                     ++ describe HrefIsNotAString) 500))
  /\ callback (page_of scenario_page) = inr (evaluate scenario_page)
  /\ (forall p articleData,
        callback p = inr articleData ->
        articleData = evaluate (document_of p)
        /\ ((Article.title articleData = []
             /\ Article.content articleData = []
             /\ post_article articleData
                = JsonError extraction_empty_message 400)
            \/ (~ (Article.title articleData = []
                   /\ Article.content articleData = [])
                /\ post_article articleData = Render articleData))).
Proof.
  split; [reflexivity|]. split; [reflexivity|].
  split; [apply callback_page_of|].
  intros p articleData Hp. split.
  - by apply callback_returns.
  - apply post_article_cases.
Qed.

Lemma callback_throws_on_svg_anchor_witness :
  evaluate scenario_page = evaluate (document_of (page_of scenario_page))
  /\ ((Article.title (evaluate scenario_page) = []
       /\ Article.content (evaluate scenario_page) = []
       /\ post_article (evaluate scenario_page)
          = JsonError extraction_empty_message 400)
      \/ (~ (Article.title (evaluate scenario_page) = []
             /\ Article.content (evaluate scenario_page) = [])
          /\ post_article (evaluate scenario_page)
             = Render (evaluate scenario_page))).
Proof.
  apply (proj2 (proj2 (proj2 callback_throws_on_svg_anchor))
           (page_of scenario_page) (evaluate scenario_page)).
  reflexivity.
Defined.
